(** * Zoom integration: webhook endpoint, OAuth2 redirect and polling coordinators

    A shallow embedding of [custom_components/zoom_fork/common.py] and the
    properties its specification states about it.

    Python values are embedded as follows.
    - [str] is a sequence of Unicode code points ([pystr], a [list N]);
      [bytes] is a [list byte].
    - What [json.loads] produces is a [value]: [None], [bool], [int], [str],
      [list] and [dict]. A [dict] keeps its insertion order, which
      [json.dumps] prints, so it is an association list. JSON floats are
      left out: nothing in the module computes with them.
    - Exceptions are the inductive [exn]; a statement completes normally,
      returns from the enclosing function, or raises ([completion]), and
      effects are threaded through an explicit state ([M]).
    - Names the module uses without binding them ([limit], [BASE_URL],
      [CONTACT_LIST_URL], [HTTPUnauthorized]) and the constants of
      [const.py] are parameters of the sections that need them. *)

From Stdlib Require Import ZArith NArith List String Ascii Bool Lia.
From Stdlib Require Import Init.Byte.
From stdpp Require Import base option list gmap.
Import ListNotations.

Local Open Scope Z_scope.
#[local] Set Warnings "-register-all".

(** ** Python strings and bytes *)

Definition pystr := list N.
Definition pybytes := list byte.

(** A literal: the code points of an ASCII string. *)
Definition lit (x : string) : pystr :=
  map N_of_ascii (list_ascii_of_string x).

Definition byte_of_Z (z : Z) : byte :=
  match Byte.of_N (Z.to_N (z mod 256)) with
  | Some b => b
  | None => x00
  end.

Definition Z_of_byte (b : byte) : Z := Z.of_N (Byte.to_N b).

Inductive exn :=
| KeyError
| AttributeError
| TypeError
| JSONDecodeError
| UnicodeEncodeError
| Invalid
| HTTPUnauthorized
| ClientError
| StopAsyncIteration
| NoURLAvailableError
| UpdateFailed (cause : exn).

(** [s.encode('utf-8')]: a surrogate code point cannot be encoded. *)
Definition utf8_char (c : N) : option (list Z) :=
  let z := Z.of_N c in
  if z <? 128 then Some [z]
  else if z <? 2048 then
    Some [Z.lor 192 (Z.shiftr z 6); Z.lor 128 (Z.land z 63)]
  else if z <? 65536 then
    if (55296 <=? z) && (z <=? 57343) then None
    else Some [Z.lor 224 (Z.shiftr z 12);
               Z.lor 128 (Z.land (Z.shiftr z 6) 63);
               Z.lor 128 (Z.land z 63)]
  else if z <? 1114112 then
    Some [Z.lor 240 (Z.shiftr z 18);
          Z.lor 128 (Z.land (Z.shiftr z 12) 63);
          Z.lor 128 (Z.land (Z.shiftr z 6) 63);
          Z.lor 128 (Z.land z 63)]
  else None.

Fixpoint encode_utf8 (s : pystr) : option pybytes :=
  match s with
  | [] => Some []
  | c :: s' =>
      match utf8_char c, encode_utf8 s' with
      | Some bs, Some rest => Some (map byte_of_Z bs ++ rest)
      | _, _ => None
      end
  end.

(** ** SHA-256 (FIPS 180-4) and HMAC (RFC 2104), as [hashlib] and [hmac] compute them *)

Module Sha256.

Definition wrap32 (x : Z) : Z := x mod 2 ^ 32.
Definition add32 (x y : Z) : Z := wrap32 (x + y).
Definition rotr (n x : Z) : Z :=
  Z.lor (Z.shiftr x n) (wrap32 (Z.shiftl x (32 - n))).
Definition not32 (x : Z) : Z := Z.lxor x (2 ^ 32 - 1).

Definition ch (x y z : Z) : Z := Z.lxor (Z.land x y) (Z.land (not32 x) z).
Definition maj (x y z : Z) : Z :=
  Z.lxor (Z.lxor (Z.land x y) (Z.land x z)) (Z.land y z).
Definition bsig0 (x : Z) : Z := Z.lxor (Z.lxor (rotr 2 x) (rotr 13 x)) (rotr 22 x).
Definition bsig1 (x : Z) : Z := Z.lxor (Z.lxor (rotr 6 x) (rotr 11 x)) (rotr 25 x).
Definition ssig0 (x : Z) : Z := Z.lxor (Z.lxor (rotr 7 x) (rotr 18 x)) (Z.shiftr x 3).
Definition ssig1 (x : Z) : Z := Z.lxor (Z.lxor (rotr 17 x) (rotr 19 x)) (Z.shiftr x 10).

(** The round constants are the first 32 bits of the fractional parts of
    the cube roots of the first 64 primes; the initial hash value comes
    from the square roots of the first 8. *)
Definition is_prime (n : Z) : bool :=
  forallb (fun d => negb (n mod Z.of_nat d =? 0)) (seq 2 (Z.to_nat n - 2)).

Definition primes : list Z :=
  filter (fun n => is_prime n = true) (map Z.of_nat (seq 2 310)).

Fixpoint cube_root_bits (k : nat) (n r : Z) : Z :=
  match k with
  | O => r
  | S k' =>
      let c := r + 2 ^ Z.of_nat k' in
      cube_root_bits k' n (if c * c * c <=? n then c else r)
  end.

Definition round_constants : list Z :=
  Eval vm_compute in
    map (fun p => wrap32 (cube_root_bits 40 (p * 2 ^ 96) 0)) (firstn 64 primes).

Definition initial_hash : list Z :=
  Eval vm_compute in
    map (fun p => wrap32 (Z.sqrt (p * 2 ^ 64))) (firstn 8 primes).

Definition be_bytes (n : nat) (x : Z) : list Z :=
  map (fun i => Z.shiftr x (8 * Z.of_nat i) mod 256) (rev (seq 0 n)).

Definition be_word (bs : list Z) : Z :=
  fold_left (fun acc b => acc * 256 + b) bs 0.

Definition pad (msg : list Z) : list Z :=
  let l := Z.of_nat (length msg) in
  msg ++ [128] ++ repeat 0 (Z.to_nat ((55 - l) mod 64)) ++ be_bytes 8 (8 * l).

Fixpoint chunks (count size : nat) (l : list Z) : list (list Z) :=
  match count with
  | O => []
  | S count' => firstn size l :: chunks count' size (skipn size l)
  end.

Definition word_at (ws : list Z) (i : nat) : Z := nth i ws 0.

Fixpoint schedule (steps : nat) (ws : list Z) : list Z :=
  match steps with
  | O => ws
  | S steps' =>
      let t := length ws in
      let w := add32 (add32 (ssig1 (word_at ws (t - 2))) (word_at ws (t - 7)))
                     (add32 (ssig0 (word_at ws (t - 15))) (word_at ws (t - 16))) in
      schedule steps' (ws ++ [w])
  end.

Record regs := Regs { ra : Z; rb : Z; rc : Z; rd : Z; re : Z; rf : Z; rg : Z; rh : Z }.

Definition round (s : regs) (kw : Z * Z) : regs :=
  let t1 := add32 (add32 (add32 (rh s) (bsig1 (re s))) (ch (re s) (rf s) (rg s)))
                  (add32 (fst kw) (snd kw)) in
  let t2 := add32 (bsig0 (ra s)) (maj (ra s) (rb s) (rc s)) in
  Regs (add32 t1 t2) (ra s) (rb s) (rc s) (add32 (rd s) t1) (re s) (rf s) (rg s).

Definition regs_of (h : list Z) : regs :=
  Regs (word_at h 0) (word_at h 1) (word_at h 2) (word_at h 3)
       (word_at h 4) (word_at h 5) (word_at h 6) (word_at h 7).

Definition list_of (s : regs) : list Z :=
  [ra s; rb s; rc s; rd s; re s; rf s; rg s; rh s].

Definition compress (h : list Z) (block : list Z) : list Z :=
  let ws := schedule 48 (map be_word (chunks 16 4 block)) in
  let s := fold_left round (combine round_constants ws) (regs_of h) in
  map (fun p => add32 (fst p) (snd p)) (combine h (list_of s)).

Definition digest_Z (msg : list Z) : list Z :=
  let p := pad msg in
  let h := fold_left compress (chunks (length p / 64) 64 p) initial_hash in
  concat (map (be_bytes 4) h).

Definition digest (msg : pybytes) : pybytes :=
  map byte_of_Z (digest_Z (map Z_of_byte msg)).

End Sha256.

Module Hmac.

Definition block_size : nat := 64.

Definition block_key (key : pybytes) : list Z :=
  let k := if (block_size <? length key)%nat then Sha256.digest key else key in
  map Z_of_byte k ++ repeat 0 (block_size - length k).

(** [hmac.new(key, msg, hashlib.sha256).digest()] *)
Definition digest (key msg : pybytes) : pybytes :=
  let k := block_key key in
  let inner := map (fun b => byte_of_Z (Z.lxor b 54)) k in
  let outer := map (fun b => byte_of_Z (Z.lxor b 92)) k in
  Sha256.digest (outer ++ Sha256.digest (inner ++ msg)).

Definition hex_digit (d : Z) : N :=
  Z.to_N (if d <? 10 then 48 + d else 87 + d).

Definition hex (bs : pybytes) : pystr :=
  flat_map (fun b => let z := Z_of_byte b in [hex_digit (z / 16); hex_digit (z mod 16)]) bs.

(** [hmac.new(key, msg, hashlib.sha256).hexdigest()] *)
Definition hexdigest (key msg : pybytes) : pystr := hex (digest key msg).

End Hmac.

(** ** Values, as [json.loads] produces them *)

Inductive value :=
| VNone
| VBool (b : bool)
| VInt (n : Z)
| VStr (s : pystr)
| VList (l : list value)
| VDict (d : list (pystr * value)).

Definition pydict := list (pystr * value).

Inductive result (A : Type) :=
| Ok (a : A)
| Err (e : exn).
Arguments Ok {A} a.
Arguments Err {A} e.

(** Truth value testing: [None], [False], zero and empty containers are false. *)
Definition truthy (v : value) : bool :=
  match v with
  | VNone => false
  | VBool b => b
  | VInt n => negb (n =? 0)
  | VStr s => negb (bool_decide (s = []))
  | VList l => match l with [] => false | _ => true end
  | VDict d => match d with [] => false | _ => true end
  end.

Definition is_None (v : value) : bool :=
  match v with VNone => true | _ => false end.

(** [v == "literal"]: only an equal [str] compares equal to a [str]. *)
Definition eq_str (v : value) (s : pystr) : bool :=
  match v with
  | VStr t => bool_decide (t = s)
  | _ => false
  end.

Fixpoint dict_lookup (d : pydict) (k : pystr) : option value :=
  match d with
  | [] => None
  | (k', v) :: d' => if decide (k' = k) then Some v else dict_lookup d' k
  end.

(** [d[k] = v]: the value of an existing key is replaced where it stands,
    a new key goes last. *)
Fixpoint dict_set (d : pydict) (k : pystr) (v : value) : pydict :=
  match d with
  | [] => [(k, v)]
  | (k', v') :: d' =>
      if decide (k' = k) then (k, v) :: d' else (k', v') :: dict_set d' k v
  end.

(** [x.get(k, dflt)]: only a [dict] has the method. *)
Definition py_get (x : value) (k : pystr) (dflt : value) : result value :=
  match x with
  | VDict d => Ok (default dflt (dict_lookup d k))
  | _ => Err AttributeError
  end.

(** [x[k]] for a [str] key. *)
Definition py_getitem (x : value) (k : pystr) : result value :=
  match x with
  | VDict d => match dict_lookup d k with Some v => Ok v | None => Err KeyError end
  | _ => Err TypeError
  end.

(** [x.encode('utf-8')]: only a [str] has the method. *)
Definition py_encode (x : value) : result pybytes :=
  match x with
  | VStr s => match encode_utf8 s with Some b => Ok b | None => Err UnicodeEncodeError end
  | _ => Err AttributeError
  end.

(** ** [json.dumps], with its default separators and [ensure_ascii] *)

Module Json.

Definition hex4 (n : Z) : pystr :=
  map (fun i => Hmac.hex_digit (Z.shiftr n (4 * Z.of_nat i) mod 16)) [3; 2; 1; 0]%nat.

Definition backslash : N := 92%N.
Definition quote : N := 34%N.

Definition escape (c : N) : pystr :=
  let z := Z.of_N c in
  if (z =? 92) || (z =? 34) then [backslash; c]
  else if z =? 8 then backslash :: lit "b"
  else if z =? 12 then backslash :: lit "f"
  else if z =? 10 then backslash :: lit "n"
  else if z =? 13 then backslash :: lit "r"
  else if z =? 9 then backslash :: lit "t"
  else if (32 <=? z) && (z <=? 126) then [c]
  else if z <? 65536 then backslash :: lit "u" ++ hex4 z
  else
    let n := z - 65536 in
    backslash :: lit "u" ++ hex4 (Z.lor 55296 (Z.land (Z.shiftr n 10) 1023))
      ++ backslash :: lit "u" ++ hex4 (Z.lor 56320 (Z.land n 1023)).

Definition dump_str (s : pystr) : pystr :=
  quote :: flat_map escape s ++ [quote].

Fixpoint decimal_digits (fuel : nat) (n : Z) (acc : pystr) : pystr :=
  match fuel with
  | O => acc
  | S fuel' =>
      let acc' := Z.to_N (48 + n mod 10) :: acc in
      if n <? 10 then acc' else decimal_digits fuel' (n / 10) acc'
  end.

Definition decimal (n : Z) : pystr :=
  let digits m := decimal_digits (S (Z.to_nat (Z.log2 m))) m [] in
  if n <? 0 then lit "-" ++ digits (- n) else digits n.

Definition join (sep : pystr) (parts : list pystr) : pystr :=
  match parts with
  | [] => []
  | p :: ps => p ++ flat_map (fun q => sep ++ q) ps
  end.

Fixpoint dumps (v : value) : pystr :=
  match v with
  | VNone => lit "null"
  | VBool true => lit "true"
  | VBool false => lit "false"
  | VInt n => decimal n
  | VStr s => dump_str s
  | VList l => lit "[" ++ join (lit ", ") (map dumps l) ++ lit "]"
  | VDict d =>
      lit "{" ++
      join (lit ", ") (map (fun kv => dump_str (fst kv) ++ lit ": " ++ dumps (snd kv)) d)
      ++ lit "}"
  end.

End Json.

(** ** Statements and effects *)

(** How a statement ends: it completes, returns from the function, raises,
    or (a [while] loop only) exhausts the fuel given to the model. *)
Inductive completion (R A : Type) :=
| Normal (a : A)
| Returned (r : R)
| Raised (e : exn)
| OutOfFuel.
Arguments Normal {R A} a.
Arguments Returned {R A} r.
Arguments Raised {R A} e.
Arguments OutOfFuel {R A}.

Definition M (S R A : Type) : Type := S -> completion R A * S.

Definition ret {S R A} (a : A) : M S R A := fun s => (Normal a, s).
Definition return_ {S R A} (r : R) : M S R A := fun s => (Returned r, s).
Definition raise {S R A} (e : exn) : M S R A := fun s => (Raised e, s).

Definition bind {S R A B} (m : M S R A) (k : A -> M S R B) : M S R B :=
  fun s =>
    match m s with
    | (Normal a, s') => k a s'
    | (Returned r, s') => (Returned r, s')
    | (Raised e, s') => (Raised e, s')
    | (OutOfFuel, s') => (OutOfFuel, s')
    end.

Notation "'let*' x ':=' m 'in' k" := (bind m (fun x => k))
  (at level 10, x name, m at level 100, k at level 200).
Notation "m '>>' k" := (bind m (fun _ => k))
  (at level 100, k at level 200, right associativity).

Definition lift {S R A} (x : result A) : M S R A :=
  match x with
  | Ok a => ret a
  | Err e => raise e
  end.

(** [try: body / except Exception as err: handler err / else: orelse x],
    where [x] stands for the locals the body leaves behind. The [else]
    clause runs when the body completes without returning or raising, and
    what it raises is not handled. *)
Definition try_except_else {S R A B}
    (body : M S R A) (handler : exn -> M S R B) (orelse : A -> M S R B) : M S R B :=
  fun s =>
    match body s with
    | (Normal a, s') => orelse a s'
    | (Returned r, s') => (Returned r, s')
    | (Raised e, s') => handler e s'
    | (OutOfFuel, s') => (OutOfFuel, s')
    end.

(** [try: body / except Exception as err: handler err] *)
Definition try_except {S R A} (body : M S R A) (handler : exn -> M S R A) : M S R A :=
  try_except_else body handler ret.

Definition out_of_fuel {S R A} : M S R A := fun s => (OutOfFuel, s).

Definition result_bind {A B} (x : result A) (k : A -> result B) : result B :=
  match x with
  | Ok a => k a
  | Err e => Err e
  end.

Notation "'let?' x ':=' m 'in' k" := (result_bind m (fun x => k))
  (at level 10, x name, m at level 100, k at level 200).

Fixpoint for_each {S R A} (l : list A) (body : A -> M S R unit) : M S R unit :=
  match l with
  | [] => ret tt
  | x :: l' => body x >> for_each l' body
  end.

(** ** The collaborators of the module *)

(** The constants imported from [const.py]. *)
Class Const := {
  HA_ZOOM_EVENT : pystr;
  CONF_VERIFICATION_TOKEN : pystr;
  (** a voluptuous schema: the validated mapping, or [Invalid] *)
  WEBHOOK_RESPONSE_SCHEMA : value -> result pydict;
}.

Inductive level := DEBUG | WARNING | ERROR.

Inductive await := AwaitJson | AwaitText.

#[global] Instance await_eq_dec : EqDecision await.
Proof. solve_decision. Defined.

(** What a request handler can change: the event bus, the log, and the
    reads of the request body it awaited. *)
Record world := World {
  bus : list (pystr * pydict);
  records : list (level * string);
  awaits : list await;
}.

Definition logger {R} (l : level) (msg : string) : M world R unit :=
  fun w => (Normal tt, World (bus w) (records w ++ [(l, msg)]) (awaits w)).

(** [hass.bus.async_fire(event_type, event_data)] *)
Definition async_fire {R} (event_type : pystr) (event_data : pydict) : M world R unit :=
  fun w => (Normal tt, World (bus w ++ [(event_type, event_data)]) (records w) (awaits w)).

(** The parts of [hass] the module reads: the token set kept under
    [hass.data[DOMAIN][VERIFICATION_TOKENS]] (empty when absent), the data
    of the integration's config entries, and the configured addresses. *)
Record HomeAssistant := {
  verification_tokens : gset pystr;
  config_entries : list pydict;
  internal_url : option pystr;
  external_url : option pystr;
  cloud_url : option pystr;
}.

(** A request: the values of its [Authorization] headers in order, and
    what [await request.json()] gives. *)
Record Request := {
  authorization : list pystr;
  json : result value;
}.

(** [await request.json()] and [await request.text()] *)
Definition request_json {R} (request : Request) : M world R value :=
  fun w => lift (json request) (World (bus w) (records w) (awaits w ++ [AwaitJson])).

Definition request_text {R} (request : Request) : M world R unit :=
  fun w => (Normal tt, World (bus w) (records w) (awaits w ++ [AwaitText])).

(** [headers.getall("authorization")]: a multidict raises [KeyError] when
    the key is absent and no default is given. *)
Definition getall_authorization (request : Request) : result (list pystr) :=
  match authorization request with
  | [] => Err KeyError
  | tokens => Ok tokens
  end.

Record Response := {
  body : option pystr;
  status : Z;
  content_type : option pystr;
}.

Module HTTPStatus.
Definition OK : Z := 200.
Definition UNAUTHORIZED : Z := 401.
End HTTPStatus.

(** [Response(status=s)] *)
Definition Response_status (s : Z) : Response :=
  {| body := None; status := s; content_type := None |}.

(** ** [ZoomWebhookRequestView]

    The clauses of the [try] statement of [post] are out of order in the
    source ([try] / [else] / [except]) and its [except] stands one level to
    the left, so the statements are embedded by their indentation:
    - lines 129-150 are [try:] (column 16) with its body (column 20) and an
      [else:] clause (column 16), which runs when the body ends without
      returning or raising;
    - the [except Exception] clause of lines 151-156 belongs to that [try],
      the only one there is;
    - line 146 ([return], column 20) is the last statement of the body of
      the [try], after the [if] of line 131;
    - line 157 ([return], column 12) stands in the body of the [for], after
      the [if] of line 128. *)

Module ZoomWebhookRequestView.
Section View.
Context `{Const}.

(** Line 128. *)
Definition authorized (tokens : gset pystr) (token : pystr) : bool :=
  bool_decide (tokens = ∅)
  || (negb (bool_decide (token = [])) && bool_decide (token ∈ tokens)).

(** Lines 115-119. *)
Definition secret_token_of (hass : HomeAssistant) : value :=
  match config_entries hass with
  | [] => VNone
  | config_entry :: _ => default VNone (dict_lookup config_entry CONF_VERIFICATION_TOKEN)
  end.

(** Lines 132-145. *)
Definition url_validation (data secret_token : value) : M world Response unit :=
  let* payload := lift (py_get data (lit "payload") (VDict [])) in
  let* plain_token := lift (py_get payload (lit "plainToken") VNone) in
  if truthy plain_token && truthy secret_token then
    let* msg := lift (py_encode plain_token) in
    let* secret := lift (py_encode secret_token) in
    let hashed := Hmac.hexdigest secret msg in
    let response_data :=
      VDict [(lit "plainToken", plain_token); (lit "encryptedToken", VStr hashed)] in
    logger DEBUG "Responding to URL validation with: %s" >>
    return_ {| body := Some (Json.dumps response_data);
               status := HTTPStatus.OK;
               content_type := Some (lit "application/json") |}
  else
    logger WARNING "Plain token or secret token missing for URL validation." >>
    return_ (Response_status HTTPStatus.UNAUTHORIZED).

(** Lines 130-146: the body of the [try]. It leaves [data] behind. *)
Definition try_body (request : Request) (secret_token : value) : M world Response value :=
  let* data := request_json request in
  let* event := lift (py_get data (lit "event") VNone) in
  (if eq_str event (lit "endpoint.url_validation")
   then url_validation data secret_token
   else ret tt) >>
  return_ (Response_status HTTPStatus.OK).

(** Lines 148-150: the [else] clause. *)
Definition else_clause (token : pystr) (data : value) : M world Response unit :=
  let* status := lift (WEBHOOK_RESPONSE_SCHEMA data) in
  logger DEBUG "Received event: %s" >>
  async_fire HA_ZOOM_EVENT (dict_set status (lit "token") (VStr token)).

(** Lines 151-156: the [except Exception] clause. *)
Definition except_clause (request : Request) (err : exn) : M world Response unit :=
  request_text request >>
  logger WARNING "Received authorized event but unable to parse: %s (%s)".

(** Lines 128-157: the body of the [for] loop. *)
Definition for_body (hass : HomeAssistant) (request : Request) (secret_token : value)
    (token : pystr) : M world Response unit :=
  (if authorized (verification_tokens hass) token
   then try_except_else (try_body request secret_token) (except_clause request) (else_clause token)
   else ret tt) >>
  return_ (Response_status HTTPStatus.OK).

Definition post (hass : HomeAssistant) (request : Request) : M world Response unit :=
  let secret_token := secret_token_of hass in
  let* tokens := lift (getall_authorization request) in
  logger DEBUG "Verification Tokens in HA: {verification_tokens}" >>
  logger DEBUG "Authorization Headers from Zoom: {tokens}" >>
  logger DEBUG "Webhook Secret Token from Config Entry: {secret_token}" >>
  for_each tokens (for_body hass request secret_token) >>
  request_text request >>
  logger WARNING "Received unauthorized request: %s (Headers: %s)" >>
  return_ (Response_status HTTPStatus.OK).

End View.
End ZoomWebhookRequestView.

(** ** [valid_external_url], [get_contact_name], [ZoomOAuth2Implementation] *)

(** [homeassistant.helpers.network.get_url], for the keyword arguments the
    module passes: the internal address is tried first when allowed, then
    the external ones, where with [prefer_cloud] the cloud (relay) address
    goes before the configured external address. *)
Definition get_external_url (hass : HomeAssistant) (prefer_cloud : bool) : option pystr :=
  match (if prefer_cloud then cloud_url hass else None) with
  | Some url => Some url
  | None =>
      match external_url hass with
      | Some url => Some url
      | None => cloud_url hass
      end
  end.

Definition get_url (hass : HomeAssistant) (allow_internal prefer_cloud : bool) : result pystr :=
  match (if allow_internal then internal_url hass else None) with
  | Some url => Ok url
  | None =>
      match get_external_url hass prefer_cloud with
      | Some url => Ok url
      | None => Err NoURLAvailableError
      end
  end.

Definition valid_external_url (hass : HomeAssistant) : M world bool unit :=
  try_except_else (lift (get_url hass false true))
    (fun err =>
       match err with
       | NoURLAvailableError =>
           logger ERROR
             "You do not have an external URL for your Home Assistant instance configured which is needed to set up the Zoom integration. You need to set the `external_url` property in the `homeassistant` section of your `configuration.yaml`, or set the `External URL` property in the Home Assistant `General Configuration` UI, before trying to setup the Zoom integration again. You can learn more about configuring this parameter at https://www.home-assistant.io/docs/configuration/basic" >>
           return_ false
       | _ => raise err
       end)
    (fun _ => return_ true).

(** A contact is a [Dict[str, str]]. *)
Definition contact_item (contact : gmap pystr pystr) (key : pystr) : result pystr :=
  match contact !! key with
  | Some v => Ok v
  | None => Err KeyError
  end.

Definition nonempty (s : pystr) : bool := negb (bool_decide (s = [])).

Definition get_contact_name (contact : gmap pystr pystr) : result pystr :=
  let contact_name := [] in
  let? first_name := contact_item contact (lit "first_name") in
  let contact_name := if nonempty first_name then first_name ++ lit " " else contact_name in
  let? last_name := contact_item contact (lit "last_name") in
  let contact_name := if nonempty last_name then contact_name ++ last_name ++ lit " " else contact_name in
  if nonempty contact_name then
    let? email := contact_item contact (lit "email") in
    Ok (contact_name ++ lit "(" ++ email ++ lit ")")
  else contact_item contact (lit "email").

Module ZoomOAuth2Implementation.

Record t := {
  client_id : pystr;
  client_secret : pystr;
  authorize_url : pystr;
  token_url : pystr;
  _verification_token : pystr;
  _name : pystr;
}.

Definition name (self : t) : pystr := _name self.
Definition domain (self : t) : pystr := _name self.

(** The property reads [self.hass] as it is when it is accessed. *)
Definition redirect_uri (AUTH_CALLBACK_PATH : pystr) (self : t) (hass : HomeAssistant)
    : result pystr :=
  let? url := get_url hass false true in
  Ok (url ++ AUTH_CALLBACK_PATH).

(** The resolution policy in the specification's words: an address
    routed through the relay when there is one, else the direct external
    address, else [ExternalAddressUnavailable]; internal addresses are
    not candidates. *)
Definition spec_resolve (hass : HomeAssistant) : result pystr :=
  match cloud_url hass, external_url hass with
  | Some relay, _ => Ok relay
  | None, Some direct => Ok direct
  | None, None => Err NoURLAvailableError
  end.

End ZoomOAuth2Implementation.

(** ** The API client and the coordinators *)

Record call := {
  method : pystr;
  url : pystr;
  params : pydict;
  raise_for_status : bool;
}.

(** A response object: what [await resp.json()] gives. *)
Definition response := result value.

(** A call made to the API, with what came back. *)
Inductive api_call :=
| GetMyUserProfile (reply : result value)
| AsyncRequest (c : call) (reply : result response).

(** [ZoomAPI], over the state [S] of the remote side. *)
Class ZoomAPI (S : Type) := {
  async_get_my_user_profile : S -> result value * S;
  async_request : call -> S -> result response * S;
}.

(** The state a refresh runs in: the remote side and the calls made so far. *)
Record client (S : Type) := Client {
  remote : S;
  calls : list api_call;
}.
Arguments Client {S} remote calls.
Arguments remote {S} c.
Arguments calls {S} c.

Definition get_profile {S} `{ZoomAPI S} {R} : M (client S) R value :=
  fun st =>
    let (r, s') := async_get_my_user_profile (remote st) in
    lift r (Client s' (calls st ++ [GetMyUserProfile r])).

Definition request {S} `{ZoomAPI S} {R} (c : call) : M (client S) R response :=
  fun st =>
    let (r, s') := async_request c (remote st) in
    lift r (Client s' (calls st ++ [AsyncRequest c r])).

Module ZoomUserProfileDataUpdateCoordinator.
Section Coordinator.
Context {S : Type} `{ZoomAPI S}.

Definition _async_update_data : M (client S) value unit :=
  try_except
    (let* profile := get_profile in return_ profile)
    (fun err => raise (UpdateFailed err)).

End Coordinator.
End ZoomUserProfileDataUpdateCoordinator.

(** The names [_async_update_data] of the contact list uses but the module
    does not bind. [limit] is [None] or a natural number; the exception
    class [HTTPUnauthorized] is the constructor of [exn]. *)
Class Globals := {
  limit : option nat;
  BASE_URL : pystr;
  CONTACT_LIST_URL : pystr;
}.

(** [for item in x]: a list gives its items, a dict its keys, a str its
    characters. *)
Definition py_iter (x : value) : result (list value) :=
  match x with
  | VList l => Ok l
  | VDict d => Ok (map (fun kv => VStr (fst kv)) d)
  | VStr s => Ok (map (fun c => VStr [c]) s)
  | _ => Err TypeError
  end.

(** [item.update({k: v})] *)
Definition py_update (item : value) (k : pystr) (v : value) : result value :=
  match item with
  | VDict d => Ok (VDict (dict_set d k v))
  | _ => Err AttributeError
  end.

Module ZoomContactListDataUpdateCoordinator.
Section Coordinator.
Context {S : Type} `{ZoomAPI S} `{Globals}.

(** Lines 229-230. *)
Fixpoint stamp (contact_type : pystr) (items : list value) : result (list value) :=
  match items with
  | [] => Ok []
  | item :: rest =>
      let? item' := py_update item (lit "contact_type") (VStr contact_type) in
      let? rest' := stamp contact_type rest in
      Ok (item' :: rest')
  end.

(** [not limit or len(contacts) < limit] *)
Definition below_limit (contacts : list value) : bool :=
  match limit with
  | None | Some O => true
  | Some n => (length contacts <? n)%nat
  end.

(** Line 212. *)
Definition loop_condition (next_page_token : value) (contacts : list value) : bool :=
  (truthy next_page_token || is_None next_page_token) && below_limit contacts.

(** Lines 215-217. *)
Definition params_of (contact_type : pystr) (next_page_token : value) : pydict :=
  let params := [(lit "type", VStr contact_type); (lit "page_size", VInt 50)] in
  if truthy next_page_token
  then dict_set params (lit "next_page_token") next_page_token
  else params.

(** Lines 219-224: the arguments of [async_request]. *)
Definition list_call (contact_type : pystr) (next_page_token : value) : call :=
  {| method := lit "get";
     url := BASE_URL ++ CONTACT_LIST_URL;
     params := params_of contact_type next_page_token;
     raise_for_status := true |}.

(** Lines 229-233: the stamped items of a page and its next token. *)
Definition received (contact_type : pystr) (resp_json : value) : result (list value * value) :=
  let? listed := py_getitem resp_json (lit "contacts") in
  let? items := py_iter listed in
  let? stamped := stamp contact_type items in
  let? next_page_token := py_get resp_json (lit "next_page_token") VNone in
  Ok (stamped, next_page_token).

(** Lines 212-233: the [while] loop, [fuel] bounding its iterations. *)
Fixpoint pages (fuel : nat) (contact_type : pystr) (next_page_token : value)
    (contacts : list value) : M (client S) (list value) (list value) :=
  if loop_condition next_page_token contacts then
    match fuel with
    | O => out_of_fuel
    | Datatypes.S fuel' =>
        let* resp :=
          try_except
            (request (list_call contact_type next_page_token))
            (fun err =>
               match err with
               | HTTPUnauthorized => return_ []
               | _ => raise err
               end) in
        let* resp_json := lift resp in
        let* page := lift (received contact_type resp_json) in
        pages fuel' contact_type (snd page) (contacts ++ fst page)
    end
  else ret contacts.

(** Lines 210-233: the [for] loop over the contact types. *)
Fixpoint partitions (fuel : nat) (contact_types : list pystr) (contacts : list value)
    : M (client S) (list value) (list value) :=
  match contact_types with
  | [] => ret contacts
  | contact_type :: rest =>
      let* contacts := pages fuel contact_type VNone contacts in
      partitions fuel rest contacts
  end.

Definition _async_update_data (fuel : nat) (contact_types : list pystr)
    : M (client S) (list value) unit :=
  try_except
    (let* contacts := partitions fuel contact_types [] in
     match limit with
     | Some (Datatypes.S n) => return_ (firstn (Datatypes.S n) contacts)
     | _ => return_ contacts
     end)
    (fun err => raise (UpdateFailed err)).

End Coordinator.
End ZoomContactListDataUpdateCoordinator.

(** [DataUpdateCoordinator] of Home Assistant: a refresh stores what
    [_async_update_data] returns; when it raises, the data stays as it was
    and the failure is recorded. *)
Record coordinator (A : Type) := Coordinator {
  data : option A;
  last_update_success : bool;
  last_exception : option exn;
}.
Arguments Coordinator {A} data last_update_success last_exception.
Arguments data {A} c.
Arguments last_update_success {A} c.
Arguments last_exception {A} c.

Definition async_refresh {A B} (self : coordinator A) (update : completion A B) : option (coordinator A) :=
  match update with
  | Returned d => Some (Coordinator (Some d) true None)
  | Raised e => Some (Coordinator (data self) false (Some e))
  | Normal _ => Some (Coordinator None true None)
  | OutOfFuel => None
  end.

(** ** Concrete collaborators and inputs, to run the embedding on *)

(** A schema in the shape of the integration's: a mapping with a string
    under ["event"], other keys allowed. *)
Definition example_schema (data : value) : result pydict :=
  match data with
  | VDict d =>
      match dict_lookup d (lit "event") with
      | Some (VStr _) => Ok d
      | _ => Err Invalid
      end
  | _ => Err Invalid
  end.

Definition example_const : Const := {|
  HA_ZOOM_EVENT := lit "zoom_webhook";
  CONF_VERIFICATION_TOKEN := lit "verification_token";
  WEBHOOK_RESPONSE_SCHEMA := example_schema;
|}.

Definition example_hass (tokens : gset pystr) (secret : value) : HomeAssistant := {|
  verification_tokens := tokens;
  config_entries := [[(lit "client_id", VStr (lit "id")); (lit "verification_token", secret)]];
  internal_url := None;
  external_url := None;
  cloud_url := None;
|}.

Definition idle : world := World [] [] [].

Definition url_validation_event (payload : value) : value :=
  VDict [(lit "event", VStr (lit "endpoint.url_validation")); (lit "payload", payload)].

Definition meeting_started : pydict :=
  [(lit "event", VStr (lit "meeting.started"));
   (lit "payload", VDict [(lit "account_id", VStr (lit "acc"))])].

Definition example_request (headers : list pystr) (body : result value) : Request :=
  {| authorization := headers; json := body |}.

Definition example_post (tokens : gset pystr) (secret : value)
    (headers : list pystr) (body : result value) : completion Response unit * world :=
  @ZoomWebhookRequestView.post example_const (example_hass tokens secret)
    (example_request headers body) idle.

(** The digest of the specification's example, [hex(HMAC_SHA256("s3cret", "abc"))]. *)
Definition s3cret_abc_digest : pystr :=
  lit "4f2f30aaf4a57bd60ab473c8e9c2cdfefc186723d4727ed6f31f04353c91389a".

(** The log lines [post] writes before it looks at the tokens. *)
Definition announced (w : world) : world :=
  World (bus w)
    (((records w ++ [(DEBUG, "Verification Tokens in HA: {verification_tokens}"%string)])
       ++ [(DEBUG, "Authorization Headers from Zoom: {tokens}"%string)])
       ++ [(DEBUG, "Webhook Secret Token from Config Entry: {secret_token}"%string)])
    (awaits w).

(** The handler read the body as JSON: it took the request for an
    authenticated one. *)
Definition parsed_body (w : world) : bool := bool_decide (AwaitJson ∈ awaits w).

(** A URL-validation request the handler accepts: the first [Authorization]
    value passes the check of line 128, and the body is a JSON object with
    the event name of the handshake whose ["payload"] is absent (then the
    default [{}] stands in) or an object. *)
Definition url_validation_request `{Const} (hass : HomeAssistant) (request : Request)
    (payload : pydict) : Prop :=
  exists token rest d,
    authorization request = token :: rest
    /\ ZoomWebhookRequestView.authorized (verification_tokens hass) token = true
    /\ json request = Ok (VDict d)
    /\ dict_lookup d (lit "event") = Some (VStr (lit "endpoint.url_validation"))
    /\ default (VDict []) (dict_lookup d (lit "payload")) = VDict payload.

(** [payload.plainToken], [None] when the key is absent. *)
Definition plain_token_of (payload : pydict) : value :=
  default VNone (dict_lookup payload (lit "plainToken")).

(** The handshake response: the two strings and the keyed digest. *)
Definition signed_response (plain_token : pystr) (key msg : pybytes) : Response := {|
  body := Some (Json.dumps (VDict [(lit "plainToken", VStr plain_token);
                                   (lit "encryptedToken", VStr (Hmac.hexdigest key msg))]));
  status := HTTPStatus.OK;
  content_type := Some (lit "application/json");
|}.

(** An ASCII literal between double quotes. *)
Definition quoted (x : string) : pystr := Json.quote :: lit x ++ [Json.quote].

(** The UTF-8 bytes of an ASCII literal. *)
Definition utf8 (x : string) : pybytes := default [] (encode_utf8 (lit x)).


(** A scripted remote side: the replies still to come, one per call; a call
    past the end of the script fails. *)
Definition script := list (result response).

#[global] Instance scripted : ZoomAPI script := {|
  async_get_my_user_profile s :=
    match s with
    | [] => (Err StopAsyncIteration, [])
    | Ok r :: s' => (r, s')
    | Err e :: s' => (Err e, s')
    end;
  async_request _ s :=
    match s with
    | [] => (Err StopAsyncIteration, [])
    | r :: s' => (r, s')
    end;
|}.

(** One page of the list endpoint. *)
Record page := Page {
  items : list pydict;
  cursor : value;
}.

Definition page_json (p : page) : value :=
  VDict [(lit "contacts", VList (map VDict (items p))); (lit "next_page_token", cursor p)].

Definition reply_of (p : page) : result response := Ok (Ok (page_json p)).

(** A page as the coordinator keeps it: every item stamped with the partition. *)
Definition stamped (contact_type : pystr) (p : page) : list value :=
  map (fun d => VDict (dict_set d (lit "contact_type") (VStr contact_type))) (items p).

(** The pages of one partition as the list endpoint serves them: each but
    the last carries a non-empty token, the last one a token that is there
    and false (the empty string). *)
Record partition := Partition {
  contact_type : pystr;
  front : list page;
  final : page;
}.

Definition served (pt : partition) : list page := front pt ++ [final pt].

Definition well_paged (pt : partition) : Prop :=
  Forall (fun p => truthy (cursor p) = true) (front pt)
  /\ truthy (cursor (final pt)) = false
  /\ is_None (cursor (final pt)) = false.

Definition all_contacts (pts : list partition) : list value :=
  flat_map (fun pt => flat_map (stamped (contact_type pt)) (served pt)) pts.

Definition all_replies (pts : list partition) : script :=
  flat_map (fun pt => map reply_of (served pt)) pts.

(** [contacts[:limit]] when a limit is set, [contacts] otherwise (lines 235-237). *)
Definition capped `{Globals} (contacts : list value) : list value :=
  match limit with
  | Some (Datatypes.S n) => firstn (Datatypes.S n) contacts
  | _ => contacts
  end.

Definition unlimited : Globals := {|
  limit := None;
  BASE_URL := lit "https://api.zoom.us/v2/";
  CONTACT_LIST_URL := lit "contacts";
|}.

Definition limited (n : nat) : Globals := {|
  limit := Some n;
  BASE_URL := lit "https://api.zoom.us/v2/";
  CONTACT_LIST_URL := lit "contacts";
|}.

Definition contact_a : pydict := [(lit "email", VStr (lit "a@example.org"))].
Definition contact_b : pydict := [(lit "email", VStr (lit "b@example.org"))].
Definition contact_c : pydict := [(lit "email", VStr (lit "c@example.org"))].

Definition external (d : pydict) : value :=
  VDict (d ++ [(lit "contact_type", VStr (lit "external"))]).

(** The pages of the specification's example, and the same with the empty
    string where the example has [null]. *)
Definition page_ab : page := Page [contact_a; contact_b] (VStr (lit "T1")).
Definition page_c_null : page := Page [contact_c] VNone.
Definition page_c_end : page := Page [contact_c] (VStr []).

(** A stateless list endpoint: the first page for a call without cursor,
    the second for the cursor of the first. *)
Definition two_page_endpoint (second : page) : ZoomAPI unit := {|
  async_get_my_user_profile _ := (Err ClientError, tt);
  async_request c _ :=
    match dict_lookup (params c) (lit "next_page_token") with
    | None => (reply_of page_ab, tt)
    | Some _ => (reply_of second, tt)
    end;
|}.

(** A list endpoint whose every reply is an empty page without a
    [next_page_token]. *)
Definition tokenless_endpoint : ZoomAPI unit := {|
  async_get_my_user_profile _ := (Err ClientError, tt);
  async_request _ _ := (Ok (Ok (VDict [(lit "contacts", VList [])])), tt);
|}.

(** How a reply ends the refresh, if it does: an authorization failure
    returns the empty list, any other exception of the call or of
    [resp.json()] is raised. *)
Definition verdict (a : api_call) : option (completion (list value) (list value)) :=
  match a with
  | AsyncRequest _ (Err HTTPUnauthorized) => Some (Returned [])
  | AsyncRequest _ (Err e) => Some (Raised e)
  | AsyncRequest _ (Ok (Err e)) => Some (Raised e)
  | _ => None
  end.

(** The calls of a run, read as a trace: replies that are pages, and at
    most one reply that ends the run, the last one. *)
Definition paged (l : list api_call) : Prop := Forall (fun a => verdict a = None) l.

Definition traced (c : completion (list value) (list value)) (new : list api_call) : Prop :=
  paged new \/ exists before a, new = before ++ [a] /\ paged before /\ verdict a = Some c.

(** The refresh ends as its loop does: what the loop returns is returned,
    what it raises is wrapped in [UpdateFailed] (lines 235-239). *)
Definition wrapped `{Globals} (c : completion (list value) (list value))
    : completion (list value) unit :=
  match c with
  | Normal contacts => Returned (capped contacts)
  | Returned r => Returned r
  | Raised e => Raised (UpdateFailed e)
  | OutOfFuel => OutOfFuel
  end.

(** How far a run got through the pages it was to be served: through all
    of them, or up to the limit. *)
Definition got `{Globals} (contacts expected : list value) (sc rest : script)
    (log : list api_call) (count : nat) : Prop :=
  (contacts = expected /\ sc = rest /\ length log = count)
  \/ (ZoomContactListDataUpdateCoordinator.below_limit contacts = false
      /\ exists suffix, contacts ++ suffix = expected).

(** One more call than replies consumed, when the loop ends on a reply. *)
Definition ends (c : completion (list value) (list value)) : nat :=
  match c with Normal _ => 0 | _ => 1 end.

(** The list refresh on a remote side, from an empty call log. *)
Definition refresh_contacts {S} (api : ZoomAPI S) (globals : Globals) (fuel : nat)
    (contact_types : list pystr) (remote : S) : completion (list value) unit * client S :=
  @ZoomContactListDataUpdateCoordinator._async_update_data S api globals fuel contact_types
    (Client remote []).

(** The profile refresh on a remote side, from an empty call log. *)
Definition refresh_profile {S} (api : ZoomAPI S) (remote : S)
    : completion value unit * client S :=
  @ZoomUserProfileDataUpdateCoordinator._async_update_data S api (Client remote []).

Definition example_profile : value :=
  VDict [(lit "id", VStr (lit "u1")); (lit "email", VStr (lit "me@example.org"))].

(** The address of the instance changes between two reads of [redirect_uri]. *)
Definition at_home : HomeAssistant := {|
  verification_tokens := ∅;
  config_entries := [];
  internal_url := Some (lit "http://homeassistant.local:8123");
  external_url := Some (lit "https://home.example.org");
  cloud_url := None;
|}.

Definition with_relay : HomeAssistant := {|
  verification_tokens := ∅;
  config_entries := [];
  internal_url := Some (lit "http://homeassistant.local:8123");
  external_url := Some (lit "https://home.example.org");
  cloud_url := Some (lit "https://abcdef.ui.nabu.casa");
|}.

Definition internal_only : HomeAssistant := {|
  verification_tokens := ∅;
  config_entries := [];
  internal_url := Some (lit "http://homeassistant.local:8123");
  external_url := None;
  cloud_url := None;
|}.

Definition example_implementation : ZoomOAuth2Implementation.t := {|
  ZoomOAuth2Implementation.client_id := lit "id";
  ZoomOAuth2Implementation.client_secret := lit "secret";
  ZoomOAuth2Implementation.authorize_url := lit "https://zoom.us/oauth/authorize";
  ZoomOAuth2Implementation.token_url := lit "https://zoom.us/oauth/token";
  ZoomOAuth2Implementation._verification_token := lit "tok";
  ZoomOAuth2Implementation._name := lit "zoom";
|}.

Definition example_contact (first_name last_name email : string) : gmap pystr pystr :=
  <[lit "first_name" := lit first_name]>
    (<[lit "last_name" := lit last_name]>
       (<[lit "email" := lit email]> ∅)).

(** The name [get_contact_name] builds from three strings. *)
Definition spec_contact_name (first_name last_name email : pystr) : pystr :=
  if nonempty first_name || nonempty last_name then
    (if nonempty first_name then first_name ++ lit " " else [])
    ++ (if nonempty last_name then last_name ++ lit " " else [])
    ++ lit "(" ++ email ++ lit ")"
  else email.

(** ** Further definitions for the properties of the handler *)

(** What is left of a request whose body could not be used: the body was
    read as JSON, then as text for the warning. *)
Definition unparsed (w : world) : world :=
  World (bus w)
    (records (announced w)
       ++ [(WARNING, "Received authorized event but unable to parse: %s (%s)"%string)])
    ((awaits w ++ [AwaitJson]) ++ [AwaitText]).

(** A lower-case hexadecimal digit. *)
Definition hex_char (c : N) : Prop := (48 <= c <= 57)%N \/ (97 <= c <= 102)%N.

(** A printable ASCII character. *)
Definition printable (c : N) : Prop := (32 <= c <= 126)%N.

(** Line 108: [name = HA_URL[1:].replace("/", ":")]. *)
Definition view_name (HA_URL : pystr) : pystr :=
  map (fun c => if (c =? 47)%N then 58%N else c) (drop 1 HA_URL).

(** [name.replace(":", "/")], the way back from [view_name]. *)
Definition view_path (name : pystr) : pystr :=
  47%N :: map (fun c => if (c =? 58)%N then 47%N else c) name.

Definition printableb (c : N) : bool := ((32 <=? c) && (c <=? 126))%N.

(** ** Further definitions for the properties of the contact list *)

(** An item as the coordinator hands it on: a mapping whose
    [contact_type] is one of the configured partitions. *)
Definition stamped_by (contact_types : list pystr) (item : value) : Prop :=
  exists d ct,
    item = VDict d /\ In ct contact_types
    /\ dict_lookup d (lit "contact_type") = Some (VStr ct).

(** An item before and after line 230: [contact_type] is set, every
    other key is as it was. *)
Definition restamped (contact_type : pystr) (item item' : value) : Prop :=
  exists d d',
    item = VDict d /\ item' = VDict d'
    /\ dict_lookup d' (lit "contact_type") = Some (VStr contact_type)
    /\ forall k, k <> lit "contact_type" -> dict_lookup d' k = dict_lookup d k.

(** The [next_page_token] a reply carries, [None] when it carries none. *)
Definition token_of (r : result response) : value :=
  match r with
  | Ok (Ok v) =>
      match py_get v (lit "next_page_token") VNone with
      | Ok t => t
      | Err _ => VNone
      end
  | _ => VNone
  end.

(** A log of list calls in which each call is made for a configured
    partition, with the token of the reply before it or with none. *)
Fixpoint follows `{Globals} (contact_types : list pystr) (prev : value)
    (log : list api_call) : Prop :=
  match log with
  | [] => True
  | AsyncRequest c r :: rest =>
      (exists ct token,
          In ct contact_types
          /\ c = ZoomContactListDataUpdateCoordinator.list_call ct token
          /\ (token = prev \/ token = VNone))
      /\ follows contact_types (token_of r) rest
  | GetMyUserProfile _ :: _ => False
  end.

(** The cursor a call sends, if it sends one. *)
Definition cursor_sent (c : call) : option value :=
  dict_lookup (params c) (lit "next_page_token").

(** The number of items a page reply lists; 0 for a reply that is no page. *)
Definition items_in (a : api_call) : nat :=
  match a with
  | AsyncRequest _ (Ok (Ok resp_json)) =>
      match (let? listed := py_getitem resp_json (lit "contacts") in py_iter listed) with
      | Ok items => length items
      | Err _ => 0%nat
      end
  | _ => 0%nat
  end.

(** The items the replies of a log list, in all. *)
Definition fetched (log : list api_call) : nat := list_sum (map items_in log).

Import ZoomWebhookRequestView.
Import ZoomContactListDataUpdateCoordinator.
Arguments Hmac.hexdigest : simpl never.
Arguments Json.dumps : simpl never.

(** Unfolds the statements of the handler. *)
Ltac run_handler :=
  unfold for_body, try_except_else, try_body, url_validation, except_clause,
    else_clause, bind, request_json, request_text, lift, logger, async_fire,
    return_, ret, raise.

(** * Properties *)

(** ** The statement monad *)

Section Monad.
Context {S R A B : Type}.
Implicit Types (m : M S R A) (k : A -> M S R B).

Lemma bind_Normal m k s a s' : m s = (Normal a, s') -> bind m k s = k a s'.
Proof. unfold bind. now intros ->. Qed.

Lemma bind_Returned m k s r s' : m s = (Returned r, s') -> bind m k s = (Returned r, s').
Proof. unfold bind. now intros ->. Qed.

Lemma bind_Raised m k s e s' : m s = (Raised e, s') -> bind m k s = (Raised e, s').
Proof. unfold bind. now intros ->. Qed.

Lemma bind_OutOfFuel m k s s' : m s = (OutOfFuel, s') -> bind m k s = (OutOfFuel, s').
Proof. unfold bind. now intros ->. Qed.

End Monad.

(** ** The webhook endpoint *)

Section WebhookProperties.
Context `{Const}.
Implicit Types (hass : HomeAssistant) (request : Request) (w : world).

(** Whatever the token and the body, one pass through the loop body ends
    in a [return]: line 146, 142, 145 or 157. *)
Lemma for_body_returns hass request secret token w :
  exists r w', for_body hass request secret token w = (Returned r, w').
Proof.
  run_handler.
  repeat (case_match; simplify_eq/=; eauto).
Qed.

(** So only the first [Authorization] value is ever looked at. *)
Lemma post_cons hass request token rest w :
  authorization request = token :: rest ->
  post hass request w = for_body hass request (secret_token_of hass) token (announced w).
Proof.
  intros Hq. unfold post, getall_authorization. rewrite Hq.
  destruct (for_body_returns hass request (secret_token_of hass) token (announced w))
    as (r & w' & E).
  rewrite E.
  do 4 (erewrite bind_Normal by reflexivity).
  apply bind_Returned. simpl. apply bind_Returned. exact E.
Qed.

Lemma for_body_unauthorized hass request secret token w :
  authorized (verification_tokens hass) token = false ->
  for_body hass request secret token w = (Returned (Response_status HTTPStatus.OK), w).
Proof. intros Ha. run_handler. now rewrite Ha. Qed.

Lemma for_body_awaits hass request secret token w :
  authorized (verification_tokens hass) token = true ->
  exists more, awaits (snd (for_body hass request secret token w)) = awaits w ++ AwaitJson :: more.
Proof.
  intros Ha. run_handler. rewrite Ha.
  repeat (case_match; simplify_eq/=; eauto); rewrite <- ?app_assoc; eauto.
Qed.

(** The [else] clause of the [try] is never entered: nothing reaches the bus. *)
Lemma for_body_bus hass request secret token w :
  bus (snd (for_body hass request secret token w)) = bus w.
Proof.
  run_handler.
  repeat (case_match; simplify_eq/=; eauto).
Qed.

Lemma post_never_fires hass request w :
  bus (snd (post hass request w)) = bus w.
Proof.
  destruct (authorization request) as [|token rest] eqn:Hq.
  - unfold post, getall_authorization. now rewrite Hq.
  - rewrite (post_cons _ _ _ _ _ Hq). now rewrite for_body_bus.
Qed.

Lemma authorized_true tokens token :
  authorized tokens token = true <-> tokens = ∅ \/ (token <> [] /\ token ∈ tokens).
Proof.
  unfold authorized.
  rewrite orb_true_iff, andb_true_iff, negb_true_iff, !bool_decide_eq_true, bool_decide_eq_false.
  tauto.
Qed.

(** What an accepted URL-validation request is answered with. *)
Lemma url_validation_run hass request payload w :
  url_validation_request hass request payload ->
  fst (post hass request w) =
    if truthy (plain_token_of payload) && truthy (secret_token_of hass) then
      match py_encode (plain_token_of payload), py_encode (secret_token_of hass) with
      | Ok msg, Ok key =>
          match plain_token_of payload with
          | VStr p => Returned (signed_response p key msg)
          | _ => Returned (Response_status HTTPStatus.OK)
          end
      | _, _ => Returned (Response_status HTTPStatus.OK)
      end
    else Returned (Response_status HTTPStatus.UNAUTHORIZED).
Proof.
  intros (token & rest & d & Hq & Ha & Hj & He & Hp).
  rewrite (post_cons _ _ _ _ _ Hq). run_handler. rewrite Ha, Hj. simpl.
  rewrite He. simpl. rewrite Hp. simpl. fold (plain_token_of payload).
  destruct (truthy (plain_token_of payload) && truthy (secret_token_of hass)); [|reflexivity].
  unfold py_encode.
  destruct (plain_token_of payload) as [| | |p| |]; try reflexivity.
  destruct (encode_utf8 p); try reflexivity.
  destruct (secret_token_of hass) as [| | |s| |]; try reflexivity.
  destruct (encode_utf8 s); reflexivity.
Qed.

(** C1, as amended. An accepted URL-validation request whose payload is
    absent or an object is answered as follows. When [payload.plainToken]
    and the configured secret are both non-empty strings that UTF-8 can
    encode, the response is 200 with content type [application/json] and the
    body [json.dumps] of [plainToken] and [encryptedToken], the latter the
    hex HMAC-SHA256 of the token keyed by the secret. When the token or the
    secret is absent, [None], empty or otherwise false, the response is 401
    with no body. Two such requests with the same token and the same secret
    get the same response. *)
Theorem url_validation_response hass request payload w :
  url_validation_request hass request payload ->
  (forall p s msg key,
      plain_token_of payload = VStr p -> secret_token_of hass = VStr s ->
      p <> [] -> s <> [] ->
      encode_utf8 p = Some msg -> encode_utf8 s = Some key ->
      fst (post hass request w) = Returned (signed_response p key msg))
  /\ (truthy (plain_token_of payload) && truthy (secret_token_of hass) = false ->
      fst (post hass request w) = Returned (Response_status HTTPStatus.UNAUTHORIZED))
  /\ (forall hass' request' payload' w',
      url_validation_request hass' request' payload' ->
      plain_token_of payload' = plain_token_of payload ->
      secret_token_of hass' = secret_token_of hass ->
      fst (post hass' request' w') = fst (post hass request w)).
Proof.
  intros Hv. split; [|split].
  - intros p s msg key Hpt Hst Hp0 Hs0 Hm Hk.
    rewrite (url_validation_run _ _ _ _ Hv), Hpt, Hst. simpl.
    rewrite Hm, Hk. rewrite !bool_decide_eq_false_2 by assumption. reflexivity.
  - intros Hf. rewrite (url_validation_run _ _ _ _ Hv), Hf. reflexivity.
  - intros hass' request' payload' w' Hv' Ept Est.
    rewrite (url_validation_run _ _ _ _ Hv), (url_validation_run _ _ _ _ Hv').
    rewrite Ept, Est. reflexivity.
Qed.

(** What is left of C1 outside its amended form: a token or a secret that is
    true but cannot be encoded (not a string, or a string with a lone
    surrogate) raises inside the [try], and the answer is the empty 200. *)
Lemma url_validation_swallowed hass request payload w :
  url_validation_request hass request payload ->
  truthy (plain_token_of payload) && truthy (secret_token_of hass) = true ->
  (exists e, py_encode (plain_token_of payload) = Err e)
  \/ (exists e, py_encode (secret_token_of hass) = Err e) ->
  fst (post hass request w) = Returned (Response_status HTTPStatus.OK).
Proof.
  intros Hv Ht Hbad. rewrite (url_validation_run _ _ _ _ Hv), Ht.
  destruct Hbad as [[e ->]|[e ->]]; [reflexivity|].
  destruct (py_encode (plain_token_of payload)); reflexivity.
Qed.

(** C2, as amended. For a request with at least one [Authorization] header
    that has not been read before: with an empty token set its body is
    parsed; with a non-empty set its body is parsed when the first header
    value is a non-empty member of the set, and only when some header value
    is a non-empty member; and when no header value is in a non-empty set
    the response is the empty 200 and no event is published. *)
Theorem authentication_by_header hass request token rest w :
  authorization request = token :: rest ->
  parsed_body w = false ->
  (verification_tokens hass = ∅ -> parsed_body (snd (post hass request w)) = true)
  /\ (token <> [] -> token ∈ verification_tokens hass ->
      parsed_body (snd (post hass request w)) = true)
  /\ (verification_tokens hass <> ∅ -> parsed_body (snd (post hass request w)) = true ->
      exists t, t ∈ token :: rest /\ t <> [] /\ t ∈ verification_tokens hass)
  /\ (verification_tokens hass <> ∅ ->
      (forall t, t ∈ token :: rest -> t ∉ verification_tokens hass) ->
      fst (post hass request w) = Returned (Response_status HTTPStatus.OK)
      /\ bus (snd (post hass request w)) = bus w).
Proof.
  intros Hq Hw. rewrite (post_cons _ _ _ _ _ Hq).
  assert (Hparsed : authorized (verification_tokens hass) token = true ->
    parsed_body (snd (for_body hass request (secret_token_of hass) token (announced w))) = true).
  { intros Ha. destruct (for_body_awaits hass request (secret_token_of hass) token (announced w) Ha)
      as [more E].
    unfold parsed_body. rewrite E. apply bool_decide_eq_true.
    apply elem_of_app. right. left. }
  split; [|split; [|split]].
  - intros Hempty. apply Hparsed, authorized_true. now left.
  - intros Hne Hin. apply Hparsed, authorized_true. now right.
  - intros Hne Hp.
    destruct (authorized (verification_tokens hass) token) eqn:Ha.
    + apply authorized_true in Ha as [Ha|[Ha1 Ha2]]; [contradiction|].
      exists token. split; [left|]; easy.
    + rewrite (for_body_unauthorized _ _ _ _ _ Ha) in Hp. simpl in Hp.
      unfold parsed_body, announced in *. simpl in Hp. congruence.
  - intros Hne Hout. split; [|now rewrite for_body_bus].
    rewrite for_body_unauthorized; [reflexivity|].
    apply not_true_is_false. rewrite authorized_true.
    intros [Ha|[_ Ha]]; [contradiction|]. apply (Hout token); [left|exact Ha].
Qed.

(** C3, what the code does. An accepted request whose body is a JSON object
    that passes the schema and is not a URL validation returns at line 146:
    the response is the empty 200, and the bus holds what it held. *)
Theorem event_not_published hass request token rest d status w :
  authorization request = token :: rest ->
  authorized (verification_tokens hass) token = true ->
  json request = Ok (VDict d) ->
  WEBHOOK_RESPONSE_SCHEMA (VDict d) = Ok status ->
  eq_str (default VNone (dict_lookup d (lit "event"))) (lit "endpoint.url_validation") = false ->
  fst (post hass request w) = Returned (Response_status HTTPStatus.OK)
  /\ bus (snd (post hass request w)) = bus w
  /\ bus (snd (post hass request w)) <>
       bus w ++ [(HA_ZOOM_EVENT, dict_set status (lit "token") (VStr token))].
Proof.
  intros Hq Ha Hj _ He. rewrite (post_cons _ _ _ _ _ Hq). split; [|split].
  - run_handler. rewrite Ha, Hj. simpl. now rewrite He.
  - now rewrite for_body_bus.
  - rewrite for_body_bus. intros E. apply (f_equal length) in E.
    rewrite length_app in E. simpl in E. lia.
Qed.

(** C4, what the code does. A request without an [Authorization] header
    makes [getall] raise at line 121, outside any [try]: [post] propagates
    [KeyError] and builds no response. *)
Theorem post_without_authorization hass request w :
  authorization request = [] ->
  post hass request w = (Raised KeyError, w).
Proof.
  intros Hq. unfold post, getall_authorization. now rewrite Hq.
Qed.

(** With at least one header the handler does return a response, and
    outside the handshake it is the empty 200. *)
Lemma post_responds hass request token rest w :
  authorization request = token :: rest ->
  exists r, fst (post hass request w) = Returned r
    /\ (r = Response_status HTTPStatus.OK
        \/ exists payload, url_validation_request hass request payload).
Proof.
  intros Hq. rewrite (post_cons _ _ _ _ _ Hq).
  destruct (authorized (verification_tokens hass) token) eqn:Ha.
  2: { rewrite for_body_unauthorized by exact Ha. eauto. }
  run_handler. rewrite Ha.
  destruct (json request) as [data|e] eqn:Hj; simpl; eauto.
  destruct data as [| | | | |d]; simpl; eauto.
  destruct (default VNone (dict_lookup d (lit "event"))) as [| | |ev| |] eqn:He; simpl; eauto.
  case_bool_decide as Hev; simpl; eauto. subst ev.
  destruct (default (VDict []) (dict_lookup d (lit "payload"))) as [| | | | |payload] eqn:Hp;
    simpl; eauto.
  assert (Hv : url_validation_request hass request payload).
  { exists token, rest, d. repeat split; try assumption.
    destruct (dict_lookup d (lit "event")); simpl in He; congruence. }
  repeat (case_match; simplify_eq/=; eauto).
Qed.

End WebhookProperties.

(** The specification's example: plain token ["abc"], secret ["s3cret"]. *)
Example hmac_s3cret_abc : Hmac.hexdigest (utf8 "s3cret") (utf8 "abc") = s3cret_abc_digest.
Proof. vm_compute. reflexivity. Qed.

(** The bytes of the response body in the specification's example. *)
Example signed_response_abc :
  body (signed_response (lit "abc") (utf8 "s3cret") (utf8 "abc"))
  = Some (lit "{" ++ quoted "plainToken" ++ lit ": " ++ quoted "abc" ++ lit ", "
          ++ quoted "encryptedToken" ++ lit ": "
          ++ quoted "4f2f30aaf4a57bd60ab473c8e9c2cdfefc186723d4727ed6f31f04353c91389a"
          ++ lit "}").
Proof. vm_compute. reflexivity. Qed.

Lemma url_validation_response_witness :
  fst (example_post {[lit "tok"]} (VStr (lit "s3cret")) [lit "tok"]
         (Ok (url_validation_event (VDict [(lit "plainToken", VStr (lit "abc"))]))))
  = Returned (signed_response (lit "abc") (utf8 "s3cret") (utf8 "abc")).
Proof.
  unfold example_post.
  refine (proj1 (@url_validation_response example_const _ (example_request _ _)
                   [(lit "plainToken", VStr (lit "abc"))] idle _)
            (lit "abc") (lit "s3cret") (utf8 "abc") (utf8 "s3cret") _ _ _ _ _ _).
  - exists (lit "tok"), [], [(lit "event", VStr (lit "endpoint.url_validation"));
                             (lit "payload", VDict [(lit "plainToken", VStr (lit "abc"))])].
    repeat split; vm_compute; reflexivity.
  - reflexivity.
  - reflexivity.
  - discriminate.
  - discriminate.
  - reflexivity.
  - reflexivity.
Defined.

(** C1 as stated fails where the payload is [null]: [plainToken] is missing,
    the lookup on [None] raises inside the [try], and the answer is the
    empty 200 where the claim has 401. *)
Lemma url_validation_null_payload :
  fst (example_post {[lit "tok"]} (VStr (lit "s3cret")) [lit "tok"]
         (Ok (url_validation_event VNone)))
  = Returned (Response_status HTTPStatus.OK)
  /\ Response_status HTTPStatus.OK <> Response_status HTTPStatus.UNAUTHORIZED.
Proof. split; [vm_compute; reflexivity|discriminate]. Qed.

Lemma authentication_by_header_witness :
  parsed_body (snd (example_post {[lit "tok"]} VNone [lit "tok"; lit "other"]
                      (Ok (VDict meeting_started)))) = true.
Proof.
  unfold example_post.
  refine (proj1 (proj2 (@authentication_by_header example_const
                          (example_hass {[lit "tok"]} VNone) (example_request _ _)
                          (lit "tok") [lit "other"] idle
                          eq_refl eq_refl)) _ _).
  - discriminate.
  - change (lit "tok" ∈ ({[lit "tok"]} : gset pystr)).
    apply elem_of_singleton_2. reflexivity.
Defined.

(** C2 as stated fails twice. The empty string is a member of the set
    [{""}], yet a request whose only header value is the empty string is not
    treated as authenticated: line 128 asks for a true token. And with an
    empty set a request without any header is not treated as authenticated
    either: its body is never read. *)
Lemma authentication_counterexample :
  ([] : pystr) ∈ ({[ [] ]} : gset pystr)
  /\ parsed_body (snd (example_post {[ [] ]} VNone [[]] (Ok (VDict meeting_started)))) = false
  /\ parsed_body (snd (example_post ∅ VNone [] (Ok (VDict meeting_started)))) = false.
Proof.
  split; [apply elem_of_singleton_2; reflexivity|].
  split; vm_compute; reflexivity.
Qed.

(** The loop returns at line 157 in its first pass: a valid token in a later
    header is not consulted. *)
Lemma later_header_not_consulted :
  lit "tok" ∈ [lit "other"; lit "tok"]
  /\ parsed_body (snd (example_post {[lit "tok"]} VNone [lit "other"; lit "tok"]
                         (Ok (VDict meeting_started)))) = false.
Proof.
  split; [right; left|vm_compute; reflexivity].
Qed.

Lemma event_not_published_witness :
  fst (example_post {[lit "tok"]} VNone [lit "tok"] (Ok (VDict meeting_started)))
    = Returned (Response_status HTTPStatus.OK)
  /\ bus (snd (example_post {[lit "tok"]} VNone [lit "tok"] (Ok (VDict meeting_started))))
     = bus idle
  /\ bus (snd (example_post {[lit "tok"]} VNone [lit "tok"] (Ok (VDict meeting_started))))
     <> bus idle ++ [(lit "zoom_webhook",
                      dict_set meeting_started (lit "token") (VStr (lit "tok")))].
Proof.
  unfold example_post.
  refine (@event_not_published example_const (example_hass {[lit "tok"]} VNone)
            (example_request _ _) (lit "tok") [] meeting_started meeting_started idle eq_refl _ eq_refl eq_refl _).
  - vm_compute. reflexivity.
  - vm_compute. reflexivity.
Defined.

Lemma post_without_authorization_witness :
  example_post {[lit "tok"]} (VStr (lit "s3cret")) [] (Ok (VDict meeting_started))
  = (Raised KeyError, idle).
Proof.
  unfold example_post.
  exact (@post_without_authorization example_const
           (example_hass {[lit "tok"]} (VStr (lit "s3cret"))) (example_request _ _) idle
           eq_refl).
Defined.

(** ** The contact list coordinator *)

Section ContactListProperties.
Context {S : Type} `{ZoomAPI S} `{Globals}.
Implicit Types (st : client S) (contacts : list value).

Lemma pages_done fuel ct token contacts st :
  loop_condition token contacts = false ->
  pages fuel ct token contacts st = (Normal contacts, st).
Proof. intros Hc. destruct fuel; simpl; now rewrite Hc. Qed.

(** One iteration of the loop, by the reply to its call. *)
Lemma pages_step fuel ct token contacts st :
  loop_condition token contacts = true ->
  pages (Datatypes.S fuel) ct token contacts st =
    let (r, s') := async_request (list_call ct token) (remote st) in
    let st' := Client s' (calls st ++ [AsyncRequest (list_call ct token) r]) in
    match r with
    | Err HTTPUnauthorized => (Returned [], st')
    | Err e => (Raised e, st')
    | Ok (Err e) => (Raised e, st')
    | Ok (Ok resp_json) =>
        match received ct resp_json with
        | Ok page => pages fuel ct (snd page) (contacts ++ fst page) st'
        | Err e => (Raised e, st')
        end
    end.
Proof.
  intros Hc. simpl. rewrite Hc.
  unfold bind, try_except, try_except_else, request, lift, ret, raise, return_.
  destruct (async_request (list_call ct token) (remote st)) as [[[resp_json|e]|e] s']; simpl.
  - destruct (received ct resp_json); reflexivity.
  - reflexivity.
  - destruct e; reflexivity.
Qed.

Lemma partitions_done fuel cts contacts st :
  below_limit contacts = false ->
  partitions fuel cts contacts st = (Normal contacts, st).
Proof.
  intros Hb. induction cts as [|ct cts IH]; [reflexivity|].
  simpl. erewrite bind_Normal; [exact IH|].
  apply pages_done. unfold loop_condition. rewrite Hb. apply andb_false_r.
Qed.

Lemma traced_Normal contacts new : traced (Normal contacts) new -> paged new.
Proof.
  intros [Hp|(before & a & _ & _ & Hv)]; [exact Hp|].
  destruct a as [|c [[|]|[]]]; discriminate.
Qed.

Lemma traced_cons c a new :
  verdict a = None -> traced c new -> traced c (a :: new).
Proof.
  intros Ha [Hp|(before & b & -> & Hp & Hv)].
  - left. now constructor.
  - right. exists (a :: before), b. split; [reflexivity|]. split; [now constructor|exact Hv].
Qed.

Lemma pages_trace fuel ct token contacts st c st' :
  pages fuel ct token contacts st = (c, st') ->
  exists new, calls st' = calls st ++ new /\ traced c new.
Proof.
  revert token contacts st. induction fuel as [|fuel IH]; intros token contacts st Hrun.
  - simpl in Hrun. destruct (loop_condition token contacts); inversion Hrun; subst.
    + exists []. rewrite app_nil_r. split; [reflexivity|left; constructor].
    + exists []. rewrite app_nil_r. split; [reflexivity|left; constructor].
  - destruct (loop_condition token contacts) eqn:Hc.
    2: { rewrite pages_done in Hrun by exact Hc. inversion Hrun; subst.
         exists []. rewrite app_nil_r. split; [reflexivity|left; constructor]. }
    rewrite pages_step in Hrun by exact Hc.
    destruct (async_request (list_call ct token) (remote st)) as [r s'].
    assert (Hlast : forall c0, verdict (AsyncRequest (list_call ct token) r) = Some c0 ->
      (c0, Client s' (calls st ++ [AsyncRequest (list_call ct token) r])) = (c, st') ->
      exists new, calls st' = calls st ++ new /\ traced c new).
    { intros c0 Hv E. inversion E; subst. eexists. split; [reflexivity|].
      right. exists [], (AsyncRequest (list_call ct token) r).
      split; [reflexivity|]. split; [constructor|exact Hv]. }
    destruct r as [[resp_json|e]|e]; simpl in Hrun.
    + destruct (received ct resp_json) as [page|e] eqn:Hr.
      * apply IH in Hrun as (new & Hcalls & Ht). simpl in Hcalls.
        exists (AsyncRequest (list_call ct token) (Ok (Ok resp_json)) :: new).
        rewrite Hcalls, <- app_assoc. split; [reflexivity|].
        now apply traced_cons.
      * inversion Hrun; subst. eexists. split; [reflexivity|]. left.
        constructor; [reflexivity|constructor].
    + eapply Hlast; [reflexivity|exact Hrun].
    + destruct e; (eapply Hlast; [reflexivity|exact Hrun]).
Qed.

Lemma partitions_trace fuel cts contacts st c st' :
  partitions fuel cts contacts st = (c, st') ->
  exists new, calls st' = calls st ++ new /\ traced c new.
Proof.
  revert contacts st. induction cts as [|ct cts IH]; intros contacts st Hrun.
  - inversion Hrun; subst. exists []. rewrite app_nil_r. split; [reflexivity|left; constructor].
  - simpl in Hrun. unfold bind in Hrun.
    destruct (pages fuel ct VNone contacts st) as [c1 st1] eqn:Hp.
    apply pages_trace in Hp as (new1 & Hc1 & Ht1).
    destruct c1 as [contacts1| | |]; try (inversion Hrun; subst; eauto).
    apply IH in Hrun as (new2 & Hc2 & Ht2).
    exists (new1 ++ new2). rewrite Hc2, Hc1, <- app_assoc. split; [reflexivity|].
    apply traced_Normal in Ht1.
    destruct Ht2 as [Hp2|(before & a & -> & Hp2 & Hv)].
    + left. now apply Forall_app.
    + right. exists (new1 ++ before), a. rewrite app_assoc. split; [reflexivity|].
      split; [now apply Forall_app|exact Hv].
Qed.

Lemma update_data_partitions fuel cts st :
  _async_update_data fuel cts st =
    (wrapped (fst (partitions fuel cts [] st)), snd (partitions fuel cts [] st)).
Proof.
  unfold _async_update_data, try_except, try_except_else, bind.
  destruct (partitions fuel cts [] st) as [[contacts| | |] st']; simpl; try reflexivity.
  unfold capped. destruct limit as [[|n]|]; reflexivity.
Qed.

Lemma update_data_trace fuel cts st c st' :
  _async_update_data fuel cts st = (c, st') ->
  exists c0 new, c = wrapped c0 /\ calls st' = calls st ++ new /\ traced c0 new.
Proof.
  rewrite update_data_partitions. intros E.
  destruct (partitions fuel cts [] st) as [c0 st0] eqn:Hp. inversion E; subst.
  apply partitions_trace in Hp as (new & Hc & Ht). simpl. eauto.
Qed.

Lemma traced_In c new a c' :
  traced c new -> In a new -> verdict a = Some c' -> c = c'.
Proof.
  intros [Hp|(before & b & -> & Hp & Hv)] Hin Ha; unfold paged in Hp.
  - rewrite Forall_forall in Hp. apply list_elem_of_In, Hp in Hin. congruence.
  - apply in_app_or in Hin as [Hin|[<-|[]]].
    + rewrite Forall_forall in Hp. apply list_elem_of_In, Hp in Hin. congruence.
    + congruence.
Qed.

Lemma unauthorized_ends fuel cts remote call :
  In (AsyncRequest call (Err HTTPUnauthorized))
     (calls (snd (_async_update_data fuel cts (Client remote [])))) ->
  fst (_async_update_data fuel cts (Client remote [])) = Returned [].
Proof.
  destruct (_async_update_data fuel cts (Client remote [])) as [c st'] eqn:Hrun.
  simpl. intros Hin.
  apply update_data_trace in Hrun as (c0 & new & -> & Hcalls & Ht).
  simpl in Hcalls. rewrite Hcalls in Hin.
  now rewrite (traced_In _ _ _ (Returned []) Ht Hin eq_refl).
Qed.

(** C6. Whenever a page call of a refresh is answered with the
    authorization failure, whatever was accumulated before, the refresh
    returns the empty list. *)
Theorem unauthorized_returns_empty fuel cts remote call :
  In (AsyncRequest call (Err HTTPUnauthorized))
     (calls (snd (_async_update_data fuel cts (Client remote [])))) ->
  fst (_async_update_data fuel cts (Client remote [])) = Returned [].
Proof. apply unauthorized_ends. Qed.

(** A call or a [resp.json()] that raises anything else makes the refresh
    raise [UpdateFailed] from it. *)
Lemma failure_is_wrapped fuel cts remote call r e :
  In (AsyncRequest call r) (calls (snd (_async_update_data fuel cts (Client remote [])))) ->
  (r = Err e /\ e <> HTTPUnauthorized) \/ r = Ok (Err e) ->
  fst (_async_update_data fuel cts (Client remote [])) = Raised (UpdateFailed e).
Proof.
  destruct (_async_update_data fuel cts (Client remote [])) as [c st'] eqn:Hrun.
  simpl. intros Hin Hr.
  apply update_data_trace in Hrun as (c0 & new & -> & Hcalls & Ht).
  simpl in Hcalls. rewrite Hcalls in Hin.
  rewrite (traced_In _ _ _ (Raised e) Ht Hin); [reflexivity|].
  destruct Hr as [[-> Hne]| ->]; [|reflexivity]. now destruct e.
Qed.

(** No refresh ends by falling off its end, and none raises anything but
    [UpdateFailed]. *)
Lemma update_data_outcome fuel cts st :
  match fst (_async_update_data fuel cts st) with
  | Normal _ => False
  | Raised e => exists cause, e = UpdateFailed cause
  | _ => True
  end.
Proof.
  rewrite update_data_partitions. simpl.
  destruct (fst (partitions fuel cts [] st)); simpl; eauto.
Qed.

(** The loop leaves at a token that is there and false, and at the limit. *)
Lemma pages_last_page fuel ct token contacts st resp_json s' page :
  loop_condition token contacts = true ->
  async_request (list_call ct token) (remote st) = (Ok (Ok resp_json), s') ->
  received ct resp_json = Ok page ->
  truthy (snd page) = false -> is_None (snd page) = false ->
  pages (Datatypes.S fuel) ct token contacts st =
    (Normal (contacts ++ fst page),
     Client s' (calls st ++ [AsyncRequest (list_call ct token) (Ok (Ok resp_json))])).
Proof.
  intros Hc Hreq Hrec Ht Hn. rewrite pages_step by exact Hc. rewrite Hreq, Hrec.
  apply pages_done. unfold loop_condition. now rewrite Ht, Hn.
Qed.

Lemma pages_at_limit fuel ct token contacts st :
  below_limit contacts = false ->
  pages fuel ct token contacts st = (Normal contacts, st).
Proof.
  intros Hb. apply pages_done. unfold loop_condition. rewrite Hb. apply andb_false_r.
Qed.

End ContactListProperties.

(** *** Against a scripted remote side *)

Section Scripted.
Context `{Globals}.
Implicit Types (sc : script) (log : list api_call).

Lemma pages_scripted fuel ct token contacts sc log :
  (length sc < fuel)%nat ->
  exists c sc' log',
    pages fuel ct token contacts (Client sc log) = (c, Client sc' log')
    /\ c <> OutOfFuel /\ (length sc' <= length sc)%nat
    /\ (length log' + length sc' <= length log + length sc + ends c)%nat.
Proof.
  revert token contacts sc log.
  induction fuel as [|fuel IH]; intros token contacts sc log Hf; [lia|].
  destruct (loop_condition token contacts) eqn:Hc.
  2: { rewrite pages_done by exact Hc. exists (Normal contacts), sc, log. simpl.
       repeat split; [discriminate|lia|lia]. }
  rewrite pages_step by exact Hc. simpl.
  destruct sc as [|r sc1]; simpl.
  { eexists _, _, _. split; [reflexivity|]. rewrite length_app. simpl.
    repeat split; [discriminate|lia|lia]. }
  simpl in Hf.
  destruct r as [[resp_json|e]|e].
  - destruct (received ct resp_json) as [page|e].
    + destruct (IH (snd page) (contacts ++ fst page) sc1
                  (log ++ [AsyncRequest (list_call ct token) (Ok (Ok resp_json))]))
        as (c & sc' & log' & Hrun & Hne & Hle & Hcount); [lia|].
      exists c, sc', log'. rewrite length_app in Hcount. simpl in Hcount.
      repeat split; [exact Hrun|exact Hne|lia|lia].
    + eexists _, _, _. split; [reflexivity|]. rewrite length_app. simpl.
      repeat split; [discriminate|lia|lia].
  - eexists _, _, _. split; [reflexivity|]. rewrite length_app. simpl.
    repeat split; [discriminate|lia|lia].
  - destruct e; (eexists _, _, _; split; [reflexivity|]; rewrite length_app; simpl;
      repeat split; [discriminate|lia|lia]).
Qed.

Lemma partitions_scripted fuel cts contacts sc log :
  (length sc < fuel)%nat ->
  exists c sc' log',
    partitions fuel cts contacts (Client sc log) = (c, Client sc' log')
    /\ c <> OutOfFuel
    /\ (length log' + length sc' <= length log + length sc + ends c)%nat.
Proof.
  revert contacts sc log. induction cts as [|ct cts IH]; intros contacts sc log Hf.
  - exists (Normal contacts), sc, log. repeat split; [discriminate|simpl; lia].
  - simpl.
    destruct (pages_scripted fuel ct VNone contacts sc log Hf)
      as (c1 & sc1 & log1 & Hrun & Hne & Hle & Hcount).
    destruct c1 as [contacts1|r|e|]; [| | |contradiction].
    + erewrite bind_Normal by exact Hrun.
      destruct (IH contacts1 sc1 log1) as (c & sc' & log' & Hrun' & Hne' & Hcount'); [lia|].
      exists c, sc', log'. simpl in Hcount. repeat split; [exact Hrun'|exact Hne'|lia].
    + erewrite bind_Returned by exact Hrun. exists (Returned r), sc1, log1.
      repeat split; [discriminate|exact Hcount].
    + erewrite bind_Raised by exact Hrun. exists (Raised e), sc1, log1.
      repeat split; [discriminate|exact Hcount].
Qed.

Lemma refresh_scripted fuel cts sc :
  (length sc < fuel)%nat ->
  fst (refresh_contacts scripted _ fuel cts sc) <> OutOfFuel
  /\ (length (calls (snd (refresh_contacts scripted _ fuel cts sc))) <= Datatypes.S (length sc))%nat.
Proof.
  intros Hf. unfold refresh_contacts. rewrite update_data_partitions.
  destruct (partitions_scripted fuel cts [] sc [] Hf) as (c & sc' & log' & Hrun & Hne & Hcount).
  rewrite Hrun. simpl in *. split.
  - destruct c; simpl; congruence.
  - destruct c; simpl in Hcount; lia.
Qed.

Lemma stamp_dicts ct ds :
  stamp ct (map VDict ds)
  = Ok (map (fun d => VDict (dict_set d (lit "contact_type") (VStr ct))) ds).
Proof.
  induction ds as [|d ds IH]; [reflexivity|].
  simpl. rewrite IH. reflexivity.
Qed.

Lemma received_page ct p : received ct (page_json p) = Ok (stamped ct p, cursor p).
Proof.
  unfold received, page_json, stamped, py_getitem, py_get.
  change (dict_lookup _ (lit "contacts")) with (Some (VList (map VDict (items p)))).
  change (dict_lookup _ (lit "next_page_token")) with (Some (cursor p)).
  simpl. rewrite stamp_dicts. reflexivity.
Qed.

Lemma pages_served ct ps fin token contacts rest log fuel :
  Forall (fun p => truthy (cursor p) = true) ps ->
  truthy (cursor fin) = false -> is_None (cursor fin) = false ->
  truthy token || is_None token = true ->
  (length ps < fuel)%nat ->
  exists contacts' sc' log',
    pages fuel ct token contacts (Client (map reply_of (ps ++ [fin]) ++ rest) log)
      = (Normal contacts', Client sc' log')
    /\ got contacts' (contacts ++ flat_map (stamped ct) (ps ++ [fin])) sc' rest log'
          (length log + length (ps ++ [fin])).
Proof.
  intros Hps Hfin Hfin'. revert token contacts log fuel.
  induction Hps as [|p ps Hp Hps IH]; intros token contacts log fuel Htok Hf.
  - destruct (below_limit contacts) eqn:Hb.
    2: { rewrite pages_at_limit by exact Hb. eexists _, _, _. split; [reflexivity|].
         right. split; [exact Hb|eauto]. }
    destruct fuel as [|fuel]; [lia|].
    rewrite pages_step by (unfold loop_condition; now rewrite Htok, Hb).
    simpl. rewrite received_page. simpl.
    rewrite pages_done by (unfold loop_condition; now rewrite Hfin, Hfin').
    eexists _, _, _. split; [reflexivity|]. left.
    rewrite app_nil_r, length_app. simpl. repeat split; reflexivity.
  - destruct (below_limit contacts) eqn:Hb.
    2: { rewrite pages_at_limit by exact Hb. eexists _, _, _. split; [reflexivity|].
         right. split; [exact Hb|eauto]. }
    destruct fuel as [|fuel]; [simpl in Hf; lia|].
    rewrite pages_step by (unfold loop_condition; now rewrite Htok, Hb).
    simpl. rewrite received_page. simpl. simpl in Hf.
    destruct (IH (cursor p) (contacts ++ stamped ct p)
                (log ++ [AsyncRequest (list_call ct token) (reply_of p)]) fuel)
      as (contacts' & sc' & log' & Hrun & Hgot); [now rewrite Hp|lia|].
    exists contacts', sc', log'. split; [exact Hrun|].
    rewrite <- app_assoc in Hgot. rewrite length_app in Hgot. simpl in Hgot.
    replace (length log + Datatypes.S (length (ps ++ [fin])))%nat
      with (length log + 1 + length (ps ++ [fin]))%nat by lia.
    exact Hgot.
Qed.

Lemma partitions_served pts contacts rest log fuel :
  Forall well_paged pts ->
  (length (all_replies pts) <= fuel)%nat ->
  exists contacts' sc' log',
    partitions fuel (map contact_type pts) contacts (Client (all_replies pts ++ rest) log)
      = (Normal contacts', Client sc' log')
    /\ got contacts' (contacts ++ all_contacts pts) sc' rest log'
          (length log + length (all_replies pts)).
Proof.
  intros Hpts. revert contacts log.
  induction Hpts as [|pt pts (Hfront & Hfin & Hfin') Hpts IH]; intros contacts log Hf.
  - eexists _, _, _. split; [reflexivity|]. left. simpl.
    rewrite app_nil_r. repeat split; lia.
  - simpl in *. rewrite length_app, length_map in Hf. unfold served in *.
    rewrite length_app in Hf. simpl in Hf.
    destruct (pages_served (contact_type pt) (front pt) (final pt) VNone contacts
                (all_replies pts ++ rest) log fuel Hfront Hfin Hfin' eq_refl)
      as (contacts1 & sc1 & log1 & Hrun & Hgot); [lia|].
    rewrite <- app_assoc. erewrite bind_Normal by exact Hrun.
    destruct Hgot as [(-> & -> & Hlog)|(Hb & suffix & Hsuffix)].
    + destruct (IH (contacts ++ flat_map (stamped (contact_type pt)) (front pt ++ [final pt]))
                  log1) as (contacts' & sc' & log' & Hrun' & Hgot'); [lia|].
      exists contacts', sc', log'. split; [exact Hrun'|].
      rewrite <- app_assoc in Hgot'. rewrite length_app, length_map.
      rewrite Hlog in Hgot'.
      replace (length log + (length (front pt ++ [final pt]) + length (all_replies pts)))%nat
        with (length log + length (front pt ++ [final pt]) + length (all_replies pts))%nat
        by lia.
      exact Hgot'.
    + rewrite partitions_done by exact Hb.
      eexists _, _, _. split; [reflexivity|]. right. split; [exact Hb|].
      exists (suffix ++ all_contacts pts). now rewrite app_assoc, Hsuffix, <- app_assoc.
Qed.

Lemma capped_prefix contacts suffix :
  below_limit contacts = false -> capped (contacts ++ suffix) = capped contacts.
Proof.
  unfold below_limit, capped. destruct limit as [[|n]|]; try discriminate.
  intros Hb. apply Nat.ltb_ge in Hb.
  rewrite firstn_app. replace (Datatypes.S n - length contacts)%nat with 0%nat by lia.
  simpl. apply app_nil_r.
Qed.

(** C5, as amended. When the list endpoint serves, for each configured
    partition in order, pages that carry a non-empty next-page token and
    then one whose token is there and empty, the refresh returns the items
    of all pages in order, each stamped with its partition as
    [contact_type], cut to the limit when one is set. Without a limit it
    makes one call per page and leaves the replies that follow unread. *)
Theorem contact_list_result pts rest fuel :
  Forall well_paged pts ->
  (length (all_replies pts) <= fuel)%nat ->
  fst (refresh_contacts scripted _ fuel (map contact_type pts) (all_replies pts ++ rest))
    = Returned (capped (all_contacts pts))
  /\ (limit = None ->
      remote (snd (refresh_contacts scripted _ fuel (map contact_type pts)
                     (all_replies pts ++ rest))) = rest
      /\ length (calls (snd (refresh_contacts scripted _ fuel (map contact_type pts)
                               (all_replies pts ++ rest))))
         = length (all_replies pts)).
Proof.
  intros Hpts Hf. unfold refresh_contacts. rewrite update_data_partitions.
  destruct (partitions_served pts [] rest [] fuel Hpts Hf)
    as (contacts' & sc' & log' & Hrun & Hgot).
  unfold script in *. rewrite Hrun. simpl in *.
  destruct Hgot as [(-> & -> & Hlog)|(Hb & suffix & Hsuffix)].
  - split; [reflexivity|]. intros _. split; [reflexivity|exact Hlog].
  - split.
    + rewrite <- Hsuffix. now rewrite capped_prefix.
    + intros Hl. unfold below_limit in Hb. rewrite Hl in Hb. discriminate.
Qed.

End Scripted.

Lemma contact_list_result_witness :
  fst (refresh_contacts scripted unlimited 2 [lit "external"]
         [reply_of page_ab; reply_of page_c_end])
  = Returned [external contact_a; external contact_b; external contact_c].
Proof.
  refine (proj1 (@contact_list_result unlimited
                   [Partition (lit "external") [page_ab] page_c_end] [] 2%nat _ _)).
  - repeat constructor.
  - simpl. lia.
Defined.

(** C5 as stated fails on its own example. After the second page, whose
    [next_page_token] is [null], the loop goes on: a third call is made,
    without cursor. Served by a script of the two pages, the refresh fails
    on that call; served by an endpoint that answers by cursor, it gets the
    first page again, so that under a limit of five [a, b] come twice. *)
Lemma null_cursor_goes_on :
  fst (refresh_contacts scripted unlimited 3 [lit "external"]
         [reply_of page_ab; reply_of page_c_null])
    = Raised (UpdateFailed StopAsyncIteration)
  /\ length (calls (snd (refresh_contacts scripted unlimited 3 [lit "external"]
                           [reply_of page_ab; reply_of page_c_null]))) = 3%nat
  /\ fst (refresh_contacts (two_page_endpoint page_c_null) (limited 5) 3 [lit "external"] tt)
     = Returned [external contact_a; external contact_b; external contact_c;
                 external contact_a; external contact_b].
Proof. repeat split; vm_compute; reflexivity. Qed.

Lemma unauthorized_returns_empty_witness :
  fst (refresh_contacts scripted unlimited 2 [lit "external"]
         [reply_of page_ab; Err HTTPUnauthorized])
  = Returned [].
Proof.
  unfold refresh_contacts.
  refine (@unauthorized_returns_empty script scripted unlimited 2%nat [lit "external"]
            [reply_of page_ab; Err HTTPUnauthorized]
            (@list_call unlimited (lit "external") (VStr (lit "T1"))) _).
  right. left. reflexivity.
Defined.

(** An endpoint that never sends a token keeps the loop going. *)
Lemma tokenless_pages fuel contacts st :
  fst (@pages unit tokenless_endpoint unlimited fuel (lit "external") VNone contacts st)
  = OutOfFuel.
Proof.
  revert contacts st. induction fuel as [|fuel IH]; intros contacts st; [reflexivity|].
  rewrite pages_step by reflexivity. simpl.
  change (received (lit "external") (VDict [(lit "contacts", VList [])]))
    with (Ok ([] : list value, VNone)).
  simpl. apply IH.
Qed.

(** C7, as amended. Fed with a finite script of replies, a refresh returns
    or raises after at most one call more than the script has replies. In
    general, the loop of a partition leaves after a page whose
    [next_page_token] is there and false, leaves without a call once the
    limit is reached, and a call that raises ends the refresh. *)
Theorem refresh_terminates `{Globals} :
  (forall sc cts fuel,
      (length sc < fuel)%nat ->
      fst (refresh_contacts scripted _ fuel cts sc) <> OutOfFuel
      /\ (length (calls (snd (refresh_contacts scripted _ fuel cts sc)))
           <= Datatypes.S (length sc))%nat)
  /\ (forall S (api : ZoomAPI S) fuel ct token contacts (st : client S) resp_json s' page,
      loop_condition token contacts = true ->
      async_request (list_call ct token) (remote st) = (Ok (Ok resp_json), s') ->
      received ct resp_json = Ok page ->
      truthy (snd page) = false -> is_None (snd page) = false ->
      pages (Datatypes.S fuel) ct token contacts st =
        (Normal (contacts ++ fst page),
         Client s' (calls st ++ [AsyncRequest (list_call ct token) (Ok (Ok resp_json))])))
  /\ (forall S (api : ZoomAPI S) fuel ct token contacts (st : client S),
      below_limit contacts = false ->
      pages fuel ct token contacts st = (Normal contacts, st))
  /\ (forall S (api : ZoomAPI S) fuel cts remote call e,
      In (AsyncRequest call (Err e))
         (calls (snd (refresh_contacts api _ fuel cts remote))) ->
      fst (refresh_contacts api _ fuel cts remote) <> OutOfFuel).
Proof.
  split; [|split; [|split]].
  - intros sc cts fuel Hf. now apply refresh_scripted.
  - intros. now apply pages_last_page.
  - intros. now apply pages_at_limit.
  - intros S api fuel cts remote call e Hin. unfold refresh_contacts in *.
    assert (e = HTTPUnauthorized \/ e <> HTTPUnauthorized) as [->|Hne]
      by (destruct e; (now left) || (right; discriminate)).
    + now rewrite (unauthorized_ends _ _ _ _ Hin).
    + now rewrite (failure_is_wrapped _ _ _ _ _ e Hin (or_introl (conj eq_refl Hne))).
Qed.

Lemma refresh_terminates_witness :
  fst (refresh_contacts scripted unlimited 3 [lit "external"]
         [reply_of page_ab; reply_of page_c_null]) <> OutOfFuel
  /\ (length (calls (snd (refresh_contacts scripted unlimited 3 [lit "external"]
                            [reply_of page_ab; reply_of page_c_null]))) <= 3)%nat.
Proof.
  refine (proj1 (@refresh_terminates unlimited) _ _ _ _). simpl. lia.
Defined.

(** C7 as stated fails where a reply carries no [next_page_token]. The loop
    does not leave after it: fed with a script of two such pages the refresh
    makes a third call, and against an endpoint whose every reply is such a
    page, with no limit set, no amount of fuel lets the refresh return. *)
Lemma tokenless_never_returns :
  dict_lookup [(lit "contacts", VList [])] (lit "next_page_token") = None
  /\ length (calls (snd (refresh_contacts scripted unlimited 3 [lit "external"]
                           [reply_of page_c_null; reply_of page_c_null]))) = 3%nat
  /\ ~ exists fuel,
       fst (refresh_contacts tokenless_endpoint unlimited fuel [lit "external"] tt)
       <> OutOfFuel.
Proof.
  split; [reflexivity|]. split; [vm_compute; reflexivity|].
  intros [fuel Hret]. apply Hret. unfold refresh_contacts.
  rewrite update_data_partitions. simpl. unfold bind.
  pose proof (tokenless_pages fuel [] (Client tt [])) as Hp.
  destruct (pages fuel (lit "external") VNone [] (Client tt [])) as [c st'].
  simpl in Hp. now subst c.
Qed.

(** ** The profile coordinator, and what a failed refresh leaves *)

Section ProfileProperties.
Context {S : Type} `{ZoomAPI S}.

Lemma profile_update (st : client S) :
  ZoomUserProfileDataUpdateCoordinator._async_update_data st =
    (match fst (async_get_my_user_profile (remote st)) with
     | Ok profile => Returned profile
     | Err e => Raised (UpdateFailed e)
     end,
     Client (snd (async_get_my_user_profile (remote st)))
       (calls st ++ [GetMyUserProfile (fst (async_get_my_user_profile (remote st)))])).
Proof.
  unfold ZoomUserProfileDataUpdateCoordinator._async_update_data, try_except,
    try_except_else, bind, get_profile.
  destruct (async_get_my_user_profile (remote st)) as [[profile|e] s']; reflexivity.
Qed.

End ProfileProperties.

(** C9, as amended. The profile refresh makes one call; it returns the
    profile as it came, or raises [UpdateFailed] from what the call raised.
    In the contact list refresh, what a page call raises, the authorization
    failure apart, and what [resp.json()] raises is raised again as
    [UpdateFailed]; no refresh raises anything else. A coordinator whose
    refresh raised keeps the data it had. *)
Theorem failures_become_update_failed {S} `{ZoomAPI S} `{Globals} :
  (forall st : client S,
      ZoomUserProfileDataUpdateCoordinator._async_update_data st =
        (match fst (async_get_my_user_profile (remote st)) with
         | Ok profile => Returned profile
         | Err e => Raised (UpdateFailed e)
         end,
         Client (snd (async_get_my_user_profile (remote st)))
           (calls st ++ [GetMyUserProfile (fst (async_get_my_user_profile (remote st)))])))
  /\ (forall fuel cts (remote : S) call r e,
      In (AsyncRequest call r) (calls (snd (refresh_contacts _ _ fuel cts remote))) ->
      (r = Err e /\ e <> HTTPUnauthorized) \/ r = Ok (Err e) ->
      fst (refresh_contacts _ _ fuel cts remote) = Raised (UpdateFailed e))
  /\ (forall fuel cts (remote : S) e,
      fst (refresh_contacts _ _ fuel cts remote) = Raised e ->
      exists cause, e = UpdateFailed cause)
  /\ (forall (A B : Type) (self : coordinator A) e,
      async_refresh self (Raised e : completion A B)
      = Some (Coordinator (data self) false (Some e))).
Proof.
  split; [|split; [|split]].
  - apply profile_update.
  - intros fuel cts remote call r e. apply failure_is_wrapped.
  - intros fuel cts remote e He. unfold refresh_contacts in He.
    pose proof (update_data_outcome fuel cts (Client remote [])) as Ho.
    now rewrite He in Ho.
  - reflexivity.
Qed.

Lemma failures_become_update_failed_witness :
  fst (refresh_contacts scripted unlimited 2 [lit "external"]
         [reply_of page_ab; Err ClientError])
  = Raised (UpdateFailed ClientError).
Proof.
  refine (proj1 (proj2 (@failures_become_update_failed script scripted unlimited))
            2%nat [lit "external"] [reply_of page_ab; Err ClientError]
            (@list_call unlimited (lit "external") (VStr (lit "T1")))
            (Err ClientError) ClientError _ _).
  - right. left. reflexivity.
  - left. split; [reflexivity|discriminate].
Defined.

(** C9 as stated fails for the authorization failure: raised by a page
    call, it is not turned into [UpdateFailed]; the refresh returns the empty
    list, and the coordinator puts it in the place of the data it had. *)
Lemma unauthorized_replaces_data :
  fst (refresh_contacts scripted unlimited 1 [lit "external"] [Err HTTPUnauthorized])
    = Returned []
  /\ async_refresh (Coordinator (Some [external contact_a]) true None)
       (fst (refresh_contacts scripted unlimited 1 [lit "external"] [Err HTTPUnauthorized]))
     = Some (Coordinator (Some []) true None).
Proof. split; vm_compute; reflexivity. Qed.

Example profile_refresh :
  refresh_profile scripted [Ok (Ok example_profile)]
  = (Returned example_profile, Client [] [GetMyUserProfile (Ok example_profile)]).
Proof. reflexivity. Qed.

(** ** The redirect URI *)

(** C8. Every read of [redirect_uri] resolves the base address from the
    instance as it is at that moment (the relay's address when there is
    one, else the direct external address, the internal one never) and
    appends the callback path; with no external address it raises. Over any
    sequence of states of the instance, each read is the resolution of its
    own state: nothing of an earlier read is kept. *)
Theorem redirect_uri_resolved (path : pystr) (self : ZoomOAuth2Implementation.t) :
  (forall hass : HomeAssistant,
      ZoomOAuth2Implementation.redirect_uri path self hass
      = (let? base := ZoomOAuth2Implementation.spec_resolve hass in Ok (base ++ path)))
  /\ (forall states : list HomeAssistant,
      map (ZoomOAuth2Implementation.redirect_uri path self) states
      = map (fun hass =>
               let? base := ZoomOAuth2Implementation.spec_resolve hass in Ok (base ++ path))
            states).
Proof.
  assert (Hread : forall hass,
    ZoomOAuth2Implementation.redirect_uri path self hass
    = (let? base := ZoomOAuth2Implementation.spec_resolve hass in Ok (base ++ path))).
  { intros hass.
    unfold ZoomOAuth2Implementation.redirect_uri, ZoomOAuth2Implementation.spec_resolve,
      get_url, get_external_url.
    destruct (cloud_url hass), (external_url hass); reflexivity. }
  split; [exact Hread|].
  intros states. apply map_ext. exact Hread.
Qed.

(** Two reads, the relay coming up in between: each gives the address of
    its moment, and an instance with an internal address only gives none. *)
Example redirect_uri_follows_the_instance :
  map (ZoomOAuth2Implementation.redirect_uri (lit "/auth/external/callback")
         example_implementation)
      [at_home; with_relay; internal_only]
  = [Ok (lit "https://home.example.org/auth/external/callback");
     Ok (lit "https://abcdef.ui.nabu.casa/auth/external/callback");
     Err NoURLAvailableError].
Proof. reflexivity. Qed.

Lemma valid_external_url_resolves hass w :
  fst (valid_external_url hass w)
  = Returned (match ZoomOAuth2Implementation.spec_resolve hass with
              | Ok _ => true
              | Err _ => false
              end).
Proof.
  unfold valid_external_url, try_except_else, get_url, get_external_url,
    ZoomOAuth2Implementation.spec_resolve, lift.
  destruct (cloud_url hass), (external_url hass); reflexivity.
Qed.

(** ** The contact name *)

(** C10. For a contact with the three keys, [get_contact_name] returns the
    email alone when first and last name are both empty; otherwise each
    non-empty name followed by one space, then the email in parentheses.
    Either way the email stands in the result as it is. *)
Theorem get_contact_name_spec (contact : gmap pystr pystr) (f l e : pystr) :
  contact !! lit "first_name" = Some f ->
  contact !! lit "last_name" = Some l ->
  contact !! lit "email" = Some e ->
  get_contact_name contact = Ok (spec_contact_name f l e)
  /\ (nonempty f = false -> nonempty l = false -> get_contact_name contact = Ok e)
  /\ exists before after, spec_contact_name f l e = before ++ e ++ after.
Proof.
  intros Hf Hl He.
  assert (Hname : get_contact_name contact = Ok (spec_contact_name f l e)).
  { unfold get_contact_name, contact_item, spec_contact_name. rewrite Hf, Hl, He.
    generalize (lit " ") (lit "(") (lit ")"). intros sp op cl.
    destruct f as [|a f], l as [|b l]; simpl; try reflexivity.
    do 2 f_equal. now rewrite <- (app_assoc (f ++ sp)). }
  split; [exact Hname|]. split.
  - intros Ef El. rewrite Hname. unfold spec_contact_name. now rewrite Ef, El.
  - unfold spec_contact_name.
    destruct (nonempty f), (nonempty l); simpl.
    + exists (f ++ lit " " ++ l ++ lit " " ++ lit "("), (lit ")"). now rewrite <- !app_assoc.
    + exists (f ++ lit " " ++ lit "("), (lit ")"). now rewrite <- !app_assoc.
    + exists (l ++ lit " " ++ lit "("), (lit ")"). now rewrite <- !app_assoc.
    + exists [], []. now rewrite app_nil_r.
Qed.

Lemma get_contact_name_spec_witness :
  get_contact_name (example_contact "First" "Last" "first@example.org")
  = Ok (lit "First Last (first@example.org)").
Proof.
  refine (proj1 (get_contact_name_spec (example_contact "First" "Last" "first@example.org")
                   (lit "First") (lit "Last") (lit "first@example.org") _ _ _));
    vm_compute; reflexivity.
Defined.

Example contact_name_email_only :
  get_contact_name (example_contact "" "" "first@example.org") = Ok (lit "first@example.org").
Proof. vm_compute. reflexivity. Qed.

Example contact_name_last_only :
  get_contact_name (example_contact "" "Last" "first@example.org")
  = Ok (lit "Last (first@example.org)").
Proof. vm_compute. reflexivity. Qed.

(** * Further properties *)

(** ** The webhook endpoint *)

Section WebhookFurther.
Context `{Const}.
Implicit Types (hass : HomeAssistant) (request : Request) (w : world).




(** X4. The secret is read from the first config entry alone. With no
    config entry, or with a first entry that has no verification token,
    every accepted URL validation is answered 401, whatever the token of the
    request and whatever later entries hold. *)
Theorem secret_of_first_entry_only hass request payload w :
  url_validation_request hass request payload ->
  config_entries hass = []
  \/ (exists entry others, config_entries hass = entry :: others
        /\ dict_lookup entry CONF_VERIFICATION_TOKEN = None) ->
  fst (post hass request w) = Returned (Response_status HTTPStatus.UNAUTHORIZED).
Proof.
  intros Hv Hentries.
  rewrite (url_validation_run _ _ _ _ Hv).
  assert (secret_token_of hass = VNone) as ->.
  { unfold secret_token_of.
    destruct Hentries as [->|(entry & others & -> & ->)]; reflexivity. }
  now rewrite andb_false_r.
Qed.

End WebhookFurther.



Lemma secret_of_first_entry_only_witness :
  fst (@post example_const
         {| verification_tokens := ∅;
            config_entries := [[(lit "client_id", VStr (lit "id"))];
                               [(lit "verification_token", VStr (lit "s3cret"))]];
            internal_url := None; external_url := None; cloud_url := None |}
         (example_request [lit "any"]
            (Ok (url_validation_event (VDict [(lit "plainToken", VStr (lit "abc"))]))))
         idle)
  = Returned (Response_status HTTPStatus.UNAUTHORIZED).
Proof.
  refine (@secret_of_first_entry_only example_const _ (example_request _ _)
            [(lit "plainToken", VStr (lit "abc"))] idle _ _).
  - exists (lit "any"), [], [(lit "event", VStr (lit "endpoint.url_validation"));
                             (lit "payload", VDict [(lit "plainToken", VStr (lit "abc"))])].
    repeat split; vm_compute; reflexivity.
  - right. eexists _, _. split; reflexivity.
Defined.

Section WebhookEffects.
Context `{Const}.
Implicit Types (hass : HomeAssistant) (request : Request) (w : world).




End WebhookEffects.

Section WebhookAnswers.
Context `{Const}.
Implicit Types (hass : HomeAssistant) (request : Request) (w : world).

(** X6. A handshake that cannot be answered is swallowed like a body that
    cannot be parsed: when its [payload] is not an object, or when the token
    or the secret is true but cannot be encoded (not a string, or a string
    with a lone surrogate), the exception is caught at line 151, the body is
    read as text, a warning is logged, and the answer is the empty 200. *)
Theorem broken_handshake_is_swallowed hass request token rest d w :
  authorization request = token :: rest ->
  authorized (verification_tokens hass) token = true ->
  json request = Ok (VDict d) ->
  dict_lookup d (lit "event") = Some (VStr (lit "endpoint.url_validation")) ->
  (exists v, dict_lookup d (lit "payload") = Some v /\ forall p, v <> VDict p)
  \/ (exists payload,
        default (VDict []) (dict_lookup d (lit "payload")) = VDict payload
        /\ truthy (plain_token_of payload) && truthy (secret_token_of hass) = true
        /\ ((exists e, py_encode (plain_token_of payload) = Err e)
            \/ exists e, py_encode (secret_token_of hass) = Err e)) ->
  post hass request w = (Returned (Response_status HTTPStatus.OK), unparsed w).
Proof.
  intros Hq Ha Hj He Hbad. rewrite (post_cons _ _ _ _ _ Hq). run_handler.
  rewrite Ha, Hj. unfold unparsed. simpl. rewrite He. simpl.
  destruct Hbad as [(v & -> & Hv)|(payload & -> & Ht & Hbad)]; simpl.
  - destruct v as [| | | | |p]; try reflexivity. now destruct (Hv p).
  - fold (plain_token_of payload). rewrite Ht.
    destruct Hbad as [[e ->]|[e ->]]; [reflexivity|].
    destruct (py_encode (plain_token_of payload)); reflexivity.
Qed.


End WebhookAnswers.

Lemma broken_handshake_is_swallowed_witness :
  example_post {[lit "tok"]} (VStr (lit "s3cret")) [lit "tok"]
    (Ok (url_validation_event (VDict [(lit "plainToken", VStr [55296%N])])))
  = (Returned (Response_status HTTPStatus.OK), unparsed idle).
Proof.
  unfold example_post.
  refine (@broken_handshake_is_swallowed example_const _ (example_request _ _)
            (lit "tok") [] _ idle eq_refl _ eq_refl _ _).
  - vm_compute. reflexivity.
  - reflexivity.
  - right. exists [(lit "plainToken", VStr [55296%N])].
    split; [reflexivity|]. split; [reflexivity|].
    left. exists UnicodeEncodeError. reflexivity.
Defined.


(** ** The digest and the body of the handshake *)

Lemma compress_length h block :
  length h = 8%nat -> length (Sha256.compress h block) = 8%nat.
Proof.
  intros Hh. unfold Sha256.compress. rewrite length_map, length_combine, Hh. reflexivity.
Qed.

Lemma fold_compress_length blocks h :
  length h = 8%nat -> length (fold_left Sha256.compress blocks h) = 8%nat.
Proof.
  revert h. induction blocks as [|b blocks IH]; intros h Hh; [exact Hh|].
  simpl. apply IH. now apply compress_length.
Qed.

Lemma be_bytes_words h :
  length (concat (map (Sha256.be_bytes 4) h)) = (4 * length h)%nat.
Proof.
  induction h as [|x h IH]; [reflexivity|].
  cbn [map concat]. rewrite length_app, IH.
  unfold Sha256.be_bytes. rewrite length_map, length_rev, length_seq. simpl. lia.
Qed.

Lemma sha256_digest_length msg : length (Sha256.digest msg) = 32%nat.
Proof.
  unfold Sha256.digest, Sha256.digest_Z. rewrite length_map, be_bytes_words.
  rewrite fold_compress_length; reflexivity.
Qed.

Lemma hex_digit_char d : 0 <= d < 16 -> hex_char (Hmac.hex_digit d).
Proof.
  intros Hd. unfold hex_char, Hmac.hex_digit.
  destruct (d <? 10) eqn:E; [apply Z.ltb_lt in E; left|apply Z.ltb_ge in E; right]; lia.
Qed.

Lemma Z_of_byte_range b : 0 <= Z_of_byte b < 256.
Proof.
  unfold Z_of_byte. pose proof (Byte.to_N_bounded b). lia.
Qed.

Lemma hex_chars bs :
  length (Hmac.hex bs) = (2 * length bs)%nat /\ Forall hex_char (Hmac.hex bs).
Proof.
  unfold Hmac.hex. induction bs as [|b bs [IHl IHf]]; [split; [reflexivity|constructor]|].
  cbn [flat_map]. pose proof (Z_of_byte_range b) as Hb. split.
  - rewrite length_app, IHl. simpl. lia.
  - apply Forall_app. split; [|exact IHf].
    constructor; [|constructor; [|constructor]]; apply hex_digit_char.
    + split; [apply Z.div_pos; lia|apply Z.div_lt_upper_bound; lia].
    + apply Z.mod_pos_bound. lia.
Qed.

(** X8. Whatever the secret and the token, the [encryptedToken] of the
    handshake has 64 characters, each a lower-case hexadecimal digit. *)
Theorem encrypted_token_is_hex (key msg : pybytes) :
  length (Hmac.hexdigest key msg) = 64%nat /\ Forall hex_char (Hmac.hexdigest key msg).
Proof.
  unfold Hmac.hexdigest. destruct (hex_chars (Hmac.digest key msg)) as [Hl Hf].
  split; [|exact Hf]. rewrite Hl. unfold Hmac.digest. now rewrite sha256_digest_length.
Qed.

Lemma printable_forallb l : forallb printableb l = true -> Forall printable l.
Proof.
  intros Hl. apply Forall_forall. intros c Hc.
  rewrite forallb_forall in Hl. apply list_elem_of_In, Hl in Hc.
  unfold printableb in Hc. apply andb_true_iff in Hc as [H1 H2].
  apply N.leb_le in H1, H2. now split.
Qed.

Lemma hex_char_printable c : hex_char c -> printable c.
Proof. unfold hex_char, printable. lia. Qed.

Lemma hex4_printable n : Forall printable (Json.hex4 n).
Proof.
  unfold Json.hex4. cbn [map].
  repeat constructor; apply hex_char_printable, hex_digit_char, Z.mod_pos_bound; lia.
Qed.

Lemma escape_printable c : Forall printable (Json.escape c).
Proof.
  unfold Json.escape.
  destruct ((Z.of_N c =? 92) || (Z.of_N c =? 34)) eqn:E1.
  { apply orb_true_iff in E1. repeat constructor; unfold printable, Json.backslash; lia. }
  destruct (Z.of_N c =? 8); [(apply printable_forallb; reflexivity)|].
  destruct (Z.of_N c =? 12); [(apply printable_forallb; reflexivity)|].
  destruct (Z.of_N c =? 10); [(apply printable_forallb; reflexivity)|].
  destruct (Z.of_N c =? 13); [(apply printable_forallb; reflexivity)|].
  destruct (Z.of_N c =? 9); [(apply printable_forallb; reflexivity)|].
  destruct ((32 <=? Z.of_N c) && (Z.of_N c <=? 126)) eqn:E2.
  { apply andb_true_iff in E2 as [E2 E3]. repeat constructor; unfold printable; lia. }
  assert (Hu : forall n, Forall printable (Json.backslash :: lit "u" ++ Json.hex4 n)).
  { intros n. constructor; [unfold printable, Json.backslash; lia|].
    apply Forall_app. split; [(apply printable_forallb; reflexivity)|apply hex4_printable]. }
  destruct (Z.of_N c <? 65536); [apply Hu|].
  constructor; [unfold printable, Json.backslash; lia|].
  apply Forall_app. split; [apply printable_forallb; reflexivity|].
  apply Forall_app. split; [apply hex4_printable|apply Hu].
Qed.

Lemma dump_str_printable s : Forall printable (Json.dump_str s).
Proof.
  unfold Json.dump_str. apply Forall_cons. split; [unfold printable, Json.quote; lia|].
  apply Forall_app. split; [|repeat constructor; unfold printable, Json.quote; lia].
  induction s as [|c s IH]; [constructor|].
  cbn [flat_map]. apply Forall_app. split; [apply escape_printable|exact IH].
Qed.

Lemma decimal_digits_printable fuel n acc :
  Forall printable acc -> Forall printable (Json.decimal_digits fuel n acc).
Proof.
  revert n acc. induction fuel as [|fuel IH]; intros n acc Hacc; [exact Hacc|].
  simpl.
  assert (Forall printable (Z.to_N (48 + n mod 10) :: acc)).
  { constructor; [|exact Hacc]. pose proof (Z.mod_pos_bound n 10). unfold printable. lia. }
  destruct (n <? 10); [assumption|]. now apply IH.
Qed.

Lemma decimal_printable n : Forall printable (Json.decimal n).
Proof.
  unfold Json.decimal. destruct (n <? 0).
  - apply Forall_app. split; [(apply printable_forallb; reflexivity)|].
    apply decimal_digits_printable. constructor.
  - apply decimal_digits_printable. constructor.
Qed.

Lemma join_printable sep parts :
  Forall printable sep -> Forall (Forall printable) parts ->
  Forall printable (Json.join sep parts).
Proof.
  intros Hsep Hparts. destruct Hparts as [|p parts Hp Hparts]; [constructor|].
  simpl. apply Forall_app. split; [exact Hp|].
  induction Hparts as [|q parts Hq Hparts IH]; [constructor|].
  cbn [flat_map]. rewrite <- app_assoc.
  apply Forall_app. split; [exact Hsep|]. apply Forall_app. split; [exact Hq|exact IH].
Qed.

Lemma dumps_printable : forall v, Forall printable (Json.dumps v).
Proof.
  fix IH 1. intros [| [|] | n | s | l | d]; cbn [Json.dumps].
  - (apply printable_forallb; reflexivity).
  - (apply printable_forallb; reflexivity).
  - (apply printable_forallb; reflexivity).
  - apply decimal_printable.
  - apply dump_str_printable.
  - apply Forall_app. split; [(apply printable_forallb; reflexivity)|].
    apply Forall_app. split; [|(apply printable_forallb; reflexivity)].
    apply join_printable; [(apply printable_forallb; reflexivity)|].
    induction l as [|x l IHl]; [constructor|].
    cbn [map]. constructor; [apply IH|exact IHl].
  - apply Forall_app. split; [(apply printable_forallb; reflexivity)|].
    apply Forall_app. split; [|(apply printable_forallb; reflexivity)].
    apply join_printable; [(apply printable_forallb; reflexivity)|].
    induction d as [|[k x] d IHd]; [constructor|].
    cbn [map fst snd]. constructor; [|exact IHd].
    apply Forall_app. split; [apply dump_str_printable|].
    apply Forall_app. split; [(apply printable_forallb; reflexivity)|apply IH].
Qed.

(** X9. [json.dumps] writes printable ASCII only, so the body of the
    handshake response is printable ASCII whatever characters the plain
    token holds. *)
Theorem handshake_body_is_ascii (p : pystr) (key msg : pybytes) :
  exists b, body (signed_response p key msg) = Some b /\ Forall printable b.
Proof.
  eexists. split; [reflexivity|]. apply dumps_printable.
Qed.

(** ** The name of the view *)

(** X10. The name of the view, [HA_URL[1:].replace("/", ":")], holds no
    slash. When [HA_URL] begins with a slash and holds no colon, putting the
    slashes back gives [HA_URL] again. *)
Theorem view_name_round_trip (HA_URL : pystr) :
  ~ In 47%N (view_name HA_URL)
  /\ (forall rest, HA_URL = 47%N :: rest -> ~ In 58%N rest ->
      view_path (view_name HA_URL) = HA_URL).
Proof.
  unfold view_name, view_path. split.
  - intros Hin. apply in_map_iff in Hin as (c & Hc & _).
    destruct (c =? 47)%N eqn:E; [discriminate|]. apply N.eqb_neq in E. congruence.
  - intros rest -> Hrest. f_equal. change (drop 1 (47%N :: rest)) with rest.
    induction rest as [|c rest IH]; [reflexivity|].
    cbn [map]. rewrite IH by (intros Hin; apply Hrest; now right). f_equal.
    destruct (c =? 47)%N eqn:E.
    + apply N.eqb_eq in E. now subst c.
    + destruct (c =? 58)%N eqn:E'; [|reflexivity].
      apply N.eqb_eq in E'. destruct Hrest. now left.
Qed.

Lemma view_name_round_trip_witness :
  view_name (lit "/api/zoom") = lit "api:zoom"
  /\ view_path (view_name (lit "/api/zoom")) = lit "/api/zoom".
Proof.
  split; [reflexivity|].
  refine (proj2 (view_name_round_trip (lit "/api/zoom")) (lit "api/zoom") eq_refl _).
  vm_compute. intuition discriminate.
Defined.

(** ** The external address *)


(** ** The contact name *)

Section ContactName.
Implicit Types (contact : gmap pystr pystr).

Lemma get_contact_name_value contact f l e :
  contact !! lit "first_name" = Some f ->
  contact !! lit "last_name" = Some l ->
  contact !! lit "email" = Some e ->
  get_contact_name contact = Ok (spec_contact_name f l e).
Proof.
  intros Hf Hl He.
  unfold get_contact_name, contact_item, spec_contact_name. rewrite Hf, Hl, He.
  generalize (lit " ") (lit "(") (lit ")"). intros sp op cl.
  destruct f as [|a f], l as [|b l]; simpl; try reflexivity.
  do 2 f_equal. now rewrite <- (app_assoc (f ++ sp)).
Qed.

(** X12. [get_contact_name] raises exactly when one of the keys
    ["first_name"], ["last_name"] and ["email"] is missing, and what it
    raises then is [KeyError]. *)
Theorem get_contact_name_raises contact :
  (get_contact_name contact = Err KeyError
   <-> contact !! lit "first_name" = None
       \/ contact !! lit "last_name" = None
       \/ contact !! lit "email" = None)
  /\ (forall e, get_contact_name contact = Err e -> e = KeyError).
Proof.
  destruct (contact !! lit "first_name") as [f|] eqn:Hf;
    destruct (contact !! lit "last_name") as [l|] eqn:Hl;
    destruct (contact !! lit "email") as [e|] eqn:He;
    try (rewrite (get_contact_name_value contact f l e Hf Hl He);
         split; [split; [discriminate|intros [?|[?|?]]; discriminate]|discriminate]);
    unfold get_contact_name, contact_item; rewrite Hf, ?Hl, ?He; simpl;
    repeat match goal with
           | |- context [if ?b then _ else _] => destruct b
           end;
    simpl; (split; [split; auto|intros ? [= <-]; reflexivity]).
Qed.

(** X13. Only the three keys count: setting any other key of the contact,
    such as the [contact_type] the coordinator stamps, leaves the name as it
    is. *)
Theorem get_contact_name_other_keys contact key v :
  key <> lit "first_name" -> key <> lit "last_name" -> key <> lit "email" ->
  get_contact_name (<[key := v]> contact) = get_contact_name contact.
Proof.
  intros H1 H2 H3. unfold get_contact_name, contact_item.
  now rewrite !lookup_insert_ne by assumption.
Qed.

(** X14. The bare email is returned only when both names are empty: with a
    name the result is longer than the email. *)
Theorem get_contact_name_bare_email contact f l e :
  contact !! lit "first_name" = Some f ->
  contact !! lit "last_name" = Some l ->
  contact !! lit "email" = Some e ->
  get_contact_name contact = Ok e <-> f = [] /\ l = [].
Proof.
  intros Hf Hl He. rewrite (get_contact_name_value contact f l e Hf Hl He).
  unfold spec_contact_name. split.
  - intros E. destruct f as [|a f], l as [|b l]; [easy| | |]; exfalso;
      simpl in E; injection E as E; apply (f_equal length) in E;
      repeat (rewrite ?length_app in E; simpl in E); lia.
  - intros [-> ->]. reflexivity.
Qed.

End ContactName.

Lemma get_contact_name_other_keys_witness :
  get_contact_name (<[lit "contact_type" := lit "external"]>
                      (example_contact "First" "" "first@example.org"))
  = get_contact_name (example_contact "First" "" "first@example.org").
Proof.
  refine (get_contact_name_other_keys _ (lit "contact_type") (lit "external") _ _ _);
    discriminate.
Defined.

Lemma get_contact_name_bare_email_witness :
  get_contact_name (example_contact "" "" "first@example.org")
    = Ok (lit "first@example.org")
  <-> lit "" = [] /\ lit "" = [].
Proof.
  refine (get_contact_name_bare_email (example_contact "" "" "first@example.org")
            (lit "") (lit "") (lit "first@example.org") _ _ _);
    vm_compute; reflexivity.
Defined.

(** ** The contact list coordinator *)

Lemma dict_lookup_set d k v : dict_lookup (dict_set d k v) k = Some v.
Proof.
  induction d as [|[k' v'] d IH]; simpl.
  - now rewrite decide_True.
  - destruct (decide (k' = k)) as [->|Hne]; simpl.
    + now rewrite decide_True.
    + now rewrite decide_False.
Qed.

Lemma dict_lookup_set_other d k v k' :
  k' <> k -> dict_lookup (dict_set d k v) k' = dict_lookup d k'.
Proof.
  intros Hk. induction d as [|[k0 v0] d IH]; simpl.
  - now rewrite decide_False by congruence.
  - destruct (decide (k0 = k)) as [->|Hne]; simpl.
    + now rewrite !decide_False by congruence.
    + destruct (decide (k0 = k')); [reflexivity|exact IH].
Qed.

(** X15. Stamping a page sets [contact_type] on every item to the
    partition, overwriting what the API may have sent under that key, and
    leaves every other field of every item as it was; it fails, with
    [AttributeError], exactly when some item is not a mapping. *)
Theorem stamp_keeps_fields (ct : pystr) (items : list value) :
  match stamp ct items with
  | Ok stamped => Forall2 (restamped ct) items stamped
  | Err e => e = AttributeError /\ Exists (fun item => forall d, item <> VDict d) items
  end.
Proof.
  induction items as [|item items IH]; [constructor|].
  simpl. destruct item as [| | | | |d]; simpl;
    try (split; [reflexivity|left; discriminate]).
  destruct (stamp ct items) as [stamped|e]; simpl.
  - constructor; [|exact IH]. exists d, (dict_set d (lit "contact_type") (VStr ct)).
    repeat split; [apply dict_lookup_set|]. intros k Hk. now apply dict_lookup_set_other.
  - destruct IH as [-> IH]. split; [reflexivity|now right].
Qed.

Section ContactListFurther.
Context {S : Type} `{ZoomAPI S} `{Globals}.
Implicit Types (st : client S) (contacts : list value) (cts : list pystr).

Lemma pages_returned fuel ct token contacts st r st' :
  pages fuel ct token contacts st = (Returned r, st') -> r = [].
Proof.
  revert token contacts st. induction fuel as [|fuel IH]; intros token contacts st Hrun.
  - simpl in Hrun. destruct (loop_condition token contacts); discriminate.
  - destruct (loop_condition token contacts) eqn:Hc.
    2: { rewrite pages_done in Hrun by exact Hc. discriminate. }
    rewrite pages_step in Hrun by exact Hc.
    destruct (async_request (list_call ct token) (remote st)) as [[[v|e]|e] s'];
      simpl in Hrun.
    + destruct (received ct v); [now apply IH in Hrun|discriminate].
    + discriminate.
    + destruct e; congruence.
Qed.

Lemma partitions_returned fuel cts contacts st r st' :
  partitions fuel cts contacts st = (Returned r, st') -> r = [].
Proof.
  revert contacts st. induction cts as [|ct cts IH]; intros contacts st Hrun;
    [discriminate|].
  simpl in Hrun. unfold bind in Hrun.
  destruct (pages fuel ct VNone contacts st) as [[contacts1|r1|e|] st1] eqn:Hp;
    try discriminate.
  - now apply IH in Hrun.
  - apply pages_returned in Hp. congruence.
Qed.

(** X16. With a limit set, no refresh returns more items than the limit,
    whatever the API sends. *)
Theorem contacts_within_limit fuel cts st n l :
  limit = Some (Datatypes.S n) ->
  fst (_async_update_data fuel cts st) = Returned l ->
  (length l <= Datatypes.S n)%nat.
Proof.
  intros Hl. rewrite update_data_partitions. simpl.
  destruct (partitions fuel cts [] st) as [[contacts|r|e|] st'] eqn:Hp; simpl;
    try discriminate.
  - unfold capped. rewrite Hl. intros [= <-]. rewrite length_firstn. lia.
  - apply partitions_returned in Hp. subst r. intros [= <-]. simpl. lia.
Qed.

Lemma stamp_stamped ct items stamped :
  stamp ct items = Ok stamped -> Forall (stamped_by [ct]) stamped.
Proof.
  revert stamped. induction items as [|item items IH]; intros stamped; simpl.
  - intros [= <-]. constructor.
  - unfold result_bind, py_update. destruct item as [| | | | |d]; try discriminate.
    destruct (stamp ct items) as [rest|]; [|discriminate].
    intros [= <-]. constructor; [|now apply IH].
    eexists _, ct. repeat split; [now left|apply dict_lookup_set].
Qed.

Lemma received_stamped ct v page :
  received ct v = Ok page -> Forall (stamped_by [ct]) (fst page).
Proof.
  unfold received, result_bind.
  destruct (py_getitem v (lit "contacts")) as [listed|]; [|discriminate].
  destruct (py_iter listed) as [items|]; [|discriminate].
  destruct (stamp ct items) as [stamped|] eqn:Hs; [|discriminate].
  destruct (py_get v (lit "next_page_token") VNone); [|discriminate].
  intros [= <-]. simpl. now apply stamp_stamped in Hs.
Qed.

Lemma stamped_by_incl cts cts' item :
  (forall ct, In ct cts -> In ct cts') -> stamped_by cts item -> stamped_by cts' item.
Proof. intros Hin (d & ct & ? & ? & ?). exists d, ct. auto. Qed.

Lemma pages_stamped cts fuel ct token contacts st contacts' st' :
  In ct cts -> Forall (stamped_by cts) contacts ->
  pages fuel ct token contacts st = (Normal contacts', st') ->
  Forall (stamped_by cts) contacts'.
Proof.
  intros Hct. revert token contacts st.
  induction fuel as [|fuel IH]; intros token contacts st Hcs Hrun.
  - simpl in Hrun. destruct (loop_condition token contacts); [discriminate|].
    now inversion Hrun; subst.
  - destruct (loop_condition token contacts) eqn:Hc.
    2: { rewrite pages_done in Hrun by exact Hc. now inversion Hrun; subst. }
    rewrite pages_step in Hrun by exact Hc.
    destruct (async_request (list_call ct token) (remote st)) as [[[v|e]|e] s'];
      simpl in Hrun.
    + destruct (received ct v) as [page|] eqn:Hr; [|discriminate].
      apply IH in Hrun; [exact Hrun|]. apply Forall_app. split; [exact Hcs|].
      eapply Forall_impl; [apply (received_stamped _ _ _ Hr)|].
      intros item. apply stamped_by_incl. intros ct' [<-|[]]. exact Hct.
    + discriminate.
    + destruct e; discriminate.
Qed.

Lemma partitions_stamped cts fuel cts' contacts st contacts' st' :
  (forall ct, In ct cts' -> In ct cts) -> Forall (stamped_by cts) contacts ->
  partitions fuel cts' contacts st = (Normal contacts', st') ->
  Forall (stamped_by cts) contacts'.
Proof.
  revert contacts st. induction cts' as [|ct cts' IH]; intros contacts st Hin Hcs Hrun.
  - now inversion Hrun; subst.
  - simpl in Hrun. unfold bind in Hrun.
    destruct (pages fuel ct VNone contacts st) as [[contacts1|r1|e|] st1] eqn:Hp;
      try discriminate.
    apply IH in Hrun; [exact Hrun|intros; apply Hin; now right|].
    eapply pages_stamped; [|exact Hcs|exact Hp]. apply Hin. now left.
Qed.

(** X17. Every item a refresh returns is a mapping whose [contact_type] is
    one of the configured partitions, whatever the API sends. *)
Theorem contacts_are_stamped fuel cts st l :
  fst (_async_update_data fuel cts st) = Returned l ->
  Forall (stamped_by cts) l.
Proof.
  rewrite update_data_partitions. simpl.
  destruct (partitions fuel cts [] st) as [[contacts|r|e|] st'] eqn:Hp; simpl;
    try discriminate.
  - intros [= <-]. apply partitions_stamped with (cts := cts) in Hp; [|auto|constructor].
    unfold capped. destruct limit as [[|n]|]; try exact Hp. now apply Forall_take.
  - apply partitions_returned in Hp. subst r. intros [= <-]. constructor.
Qed.

End ContactListFurther.

Section ContactListCalls.
Context {S : Type} `{ZoomAPI S} `{Globals}.
Implicit Types (st : client S) (contacts : list value) (cts : list pystr).

Lemma follows_weaken cts prev log : follows cts VNone log -> follows cts prev log.
Proof.
  destruct log as [|[r|c r] log]; simpl; try easy.
  intros [(ct & token & Hct & Hc & Htoken) Hrest]. split; [|exact Hrest].
  exists ct, token. repeat split; try assumption. right. now destruct Htoken.
Qed.

Lemma follows_app cts prev log1 log2 :
  follows cts prev log1 -> follows cts VNone log2 -> follows cts prev (log1 ++ log2).
Proof.
  revert prev. induction log1 as [|[r|c r] log1 IH]; intros prev H1 H2; simpl in *.
  - now apply follows_weaken.
  - contradiction.
  - destruct H1 as [Hc Hrest]. split; [exact Hc|]. now apply IH.
Qed.

Lemma follows_suffix cts prev log1 log2 :
  follows cts prev (log1 ++ log2) -> exists prev', follows cts prev' log2.
Proof.
  revert prev. induction log1 as [|[r|c r] log1 IH]; intros prev Hf; simpl in *.
  - eauto.
  - contradiction.
  - destruct Hf as [_ Hrest]. eauto.
Qed.

Lemma received_token ct v page :
  received ct v = Ok page -> token_of (Ok (Ok v)) = snd page.
Proof.
  unfold received, result_bind, token_of.
  destruct (py_getitem v (lit "contacts")) as [listed|]; [|discriminate].
  destruct (py_iter listed) as [items|]; [|discriminate].
  destruct (stamp ct items) as [stamped|]; [|discriminate].
  destruct (py_get v (lit "next_page_token") VNone); [|discriminate].
  now intros [= <-].
Qed.

Lemma pages_follows cts fuel ct token contacts st c st' :
  In ct cts ->
  pages fuel ct token contacts st = (c, st') ->
  exists new, calls st' = calls st ++ new /\ follows cts token new.
Proof.
  intros Hct. revert token contacts st.
  induction fuel as [|fuel IH]; intros token contacts st Hrun.
  - simpl in Hrun. exists [].
    destruct (loop_condition token contacts); inversion Hrun; subst;
      now rewrite app_nil_r.
  - destruct (loop_condition token contacts) eqn:Hc.
    2: { rewrite pages_done in Hrun by exact Hc. inversion Hrun; subst.
         exists []. now rewrite app_nil_r. }
    rewrite pages_step in Hrun by exact Hc.
    destruct (async_request (list_call ct token) (remote st)) as [r s'].
    assert (Hhead : exists ct0 token0,
               In ct0 cts /\ list_call ct token = list_call ct0 token0
               /\ (token0 = token \/ token0 = VNone)) by (exists ct, token; auto).
    assert (Hend : forall c0,
      (c0, Client s' (calls st ++ [AsyncRequest (list_call ct token) r])) = (c, st') ->
      exists new, calls st' = calls st ++ new /\ follows cts token new).
    { intros c0 E. inversion E; subst. eexists. split; [reflexivity|].
      simpl. split; [exact Hhead|exact I]. }
    destruct r as [[v|e]|e]; simpl in Hrun.
    + destruct (received ct v) as [page|e] eqn:Hr; [|exact (Hend _ Hrun)].
      apply IH in Hrun as (new & Hcalls & Hf). simpl in Hcalls.
      exists (AsyncRequest (list_call ct token) (Ok (Ok v)) :: new).
      rewrite Hcalls, <- app_assoc. split; [reflexivity|].
      simpl. split; [exact Hhead|].
      change (follows cts (token_of (Ok (Ok v))) new).
      now rewrite (received_token _ _ _ Hr).
    + exact (Hend _ Hrun).
    + destruct e; exact (Hend _ Hrun).
Qed.

Lemma partitions_follows cts fuel cts' contacts st c st' :
  (forall ct, In ct cts' -> In ct cts) ->
  partitions fuel cts' contacts st = (c, st') ->
  exists new, calls st' = calls st ++ new /\ follows cts VNone new.
Proof.
  revert contacts st. induction cts' as [|ct cts' IH]; intros contacts st Hin Hrun.
  - inversion Hrun; subst. exists []. now rewrite app_nil_r.
  - simpl in Hrun. unfold bind in Hrun.
    destruct (pages fuel ct VNone contacts st) as [c1 st1] eqn:Hp.
    apply (pages_follows cts) in Hp as (new1 & Hc1 & Hf1); [|apply Hin; now left].
    destruct c1 as [contacts1| | |]; try (inversion Hrun; subst; eauto).
    apply IH in Hrun as (new2 & Hc2 & Hf2); [|intros; apply Hin; now right].
    exists (new1 ++ new2). rewrite Hc2, Hc1, <- app_assoc. split; [reflexivity|].
    now apply follows_app.
Qed.

Lemma refresh_follows fuel cts remote :
  follows cts VNone (calls (snd (_async_update_data fuel cts (Client remote [])))).
Proof.
  rewrite update_data_partitions. simpl.
  destruct (partitions fuel cts [] (Client remote [])) as [c st'] eqn:Hp.
  apply (partitions_follows cts) in Hp as (new & Hcalls & Hf); [|auto].
  simpl in *. now rewrite Hcalls.
Qed.

Lemma params_type ct token :
  dict_lookup (params_of ct token) (lit "type") = Some (VStr ct)
  /\ dict_lookup (params_of ct token) (lit "page_size") = Some (VInt 50).
Proof. unfold params_of. destruct (truthy token); split; reflexivity. Qed.

Lemma params_cursor ct token :
  cursor_sent (list_call ct token) = if truthy token then Some token else None.
Proof. unfold cursor_sent, list_call, params_of. simpl. destruct (truthy token); reflexivity. Qed.

(** X18. Whatever the API sends, the only calls a refresh makes are GET
    requests to the list endpoint, with [raise_for_status], a [page_size]
    of 50 and the [type] of a configured partition. *)
Theorem only_list_requests fuel cts remote a :
  In a (calls (snd (_async_update_data fuel cts (Client remote [])))) ->
  exists c r ct,
    a = AsyncRequest c r
    /\ method c = lit "get" /\ url c = BASE_URL ++ CONTACT_LIST_URL
    /\ raise_for_status c = true
    /\ In ct cts
    /\ dict_lookup (params c) (lit "type") = Some (VStr ct)
    /\ dict_lookup (params c) (lit "page_size") = Some (VInt 50).
Proof.
  pose proof (refresh_follows fuel cts remote) as Hf.
  generalize dependent (calls (snd (_async_update_data fuel cts (Client remote [])))).
  intros log. generalize VNone.
  induction log as [|[r|c r] log IH]; intros prev Hf Hin; simpl in *; try contradiction.
  destruct Hf as [(ct & token & Hct & -> & _) Hrest].
  destruct Hin as [<-|Hin]; [|now apply (IH _ Hrest)].
  exists (list_call ct token), r, ct.
  destruct (params_type ct token) as [Ht Hp]. repeat split; assumption.
Qed.

(** X19. The cursor is used as it was handed over: the first call of a
    refresh sends no [next_page_token], and a call that sends one sends the
    token, a true one, of the reply to the call just before it. *)
Theorem cursor_comes_from_last_reply fuel cts remote :
  (forall c r log,
      calls (snd (_async_update_data fuel cts (Client remote []))) = AsyncRequest c r :: log ->
      cursor_sent c = None)
  /\ (forall before c1 r1 c2 r2 after token,
      calls (snd (_async_update_data fuel cts (Client remote [])))
        = before ++ AsyncRequest c1 r1 :: AsyncRequest c2 r2 :: after ->
      cursor_sent c2 = Some token ->
      truthy token = true
      /\ exists v, r1 = Ok (Ok v) /\ py_get v (lit "next_page_token") VNone = Ok token).
Proof.
  pose proof (refresh_follows fuel cts remote) as Hf. split.
  - intros c r log E. rewrite E in Hf. simpl in Hf.
    destruct Hf as [(ct & token & _ & -> & Htoken) _]. rewrite params_cursor.
    now destruct Htoken as [->| ->].
  - intros before c1 r1 c2 r2 after token E Hsent. rewrite E in Hf.
    apply follows_suffix in Hf as [prev Hf]. simpl in Hf.
    destruct Hf as (_ & (ct & token2 & _ & -> & Htoken) & _).
    rewrite params_cursor in Hsent.
    destruct (truthy token2) eqn:Ht; [|discriminate]. injection Hsent as ->.
    split; [exact Ht|].
    destruct Htoken as [->| ->]; [|discriminate].
    unfold token_of in Ht |- *. destruct r1 as [[v|]|]; try discriminate.
    exists v. split; [reflexivity|].
    destruct (py_get v (lit "next_page_token") VNone); [reflexivity|discriminate].
Qed.

End ContactListCalls.

Section ContactListLimit.
Context {S : Type} `{ZoomAPI S} `{Globals}.
Implicit Types (st : client S) (contacts : list value) (cts : list pystr).

Lemma stamp_length ct items stamped :
  stamp ct items = Ok stamped -> length stamped = length items.
Proof.
  revert stamped. induction items as [|item items IH]; intros stamped; simpl.
  - now intros [= <-].
  - unfold result_bind.
    destruct (py_update item (lit "contact_type") (VStr ct)); [|discriminate].
    destruct (stamp ct items) as [rest|]; [|discriminate].
    intros [= <-]. simpl. now rewrite (IH rest).
Qed.

Lemma received_length ct v page c :
  received ct v = Ok page -> length (fst page) = items_in (AsyncRequest c (Ok (Ok v))).
Proof.
  unfold received, items_in, result_bind.
  destruct (py_getitem v (lit "contacts")) as [listed|]; [|discriminate].
  destruct (py_iter listed) as [items|]; [|discriminate].
  destruct (stamp ct items) as [stamped|] eqn:Hs; [|discriminate].
  destruct (py_get v (lit "next_page_token") VNone); [|discriminate].
  intros [= <-]. simpl. now apply stamp_length in Hs.
Qed.

Lemma last_case {A} (l : list A) : l = [] \/ exists before a, l = before ++ [a].
Proof. induction l as [|a before _] using rev_ind; eauto. Qed.

Lemma fetched_app log1 log2 : fetched (log1 ++ log2) = (fetched log1 + fetched log2)%nat.
Proof.
  unfold fetched. rewrite map_app. induction (map items_in log1) as [|x l IH]; simpl; lia.
Qed.

Lemma pages_fetched n fuel ct token contacts st c st' :
  limit = Some (Datatypes.S n) ->
  pages fuel ct token contacts st = (c, st') ->
  exists new,
    calls st' = calls st ++ new
    /\ (forall contacts', c = Normal contacts' ->
          length contacts' = (length contacts + fetched new)%nat)
    /\ (forall before a, new = before ++ [a] ->
          (length contacts + fetched before < Datatypes.S n)%nat).
Proof.
  intros Hl. revert token contacts st.
  assert (Hnil : forall contacts st,
    exists new : list api_call,
      calls st = calls st ++ new
      /\ (forall contacts', Normal (R := list value) contacts = Normal contacts' ->
            length contacts' = (length contacts + fetched new)%nat)
      /\ (forall before a, new = before ++ [a] ->
            (length contacts + fetched before < Datatypes.S n)%nat)).
  { intros contacts st. exists []. rewrite app_nil_r. split; [reflexivity|]. split.
    - intros ? [= <-]. unfold fetched. simpl. lia.
    - intros [|] ? E; discriminate E. }
  induction fuel as [|fuel IH]; intros token contacts st Hrun.
  - simpl in Hrun. destruct (loop_condition token contacts).
    + inversion Hrun; subst. exists []. rewrite app_nil_r. split; [reflexivity|]. split.
      * discriminate.
      * intros [|] ? E; discriminate E.
    + inversion Hrun; subst. apply Hnil.
  - destruct (loop_condition token contacts) eqn:Hc.
    2: { rewrite pages_done in Hrun by exact Hc. inversion Hrun; subst. apply Hnil. }
    rewrite pages_step in Hrun by exact Hc.
    assert (Hb : (length contacts < Datatypes.S n)%nat).
    { unfold loop_condition, below_limit in Hc. rewrite Hl in Hc.
      apply andb_true_iff in Hc as [_ Hc]. now apply Nat.ltb_lt in Hc. }
    destruct (async_request (list_call ct token) (remote st)) as [r s'].
    assert (Hend : forall c0,
      (forall contacts', c0 <> Normal contacts') ->
      (c0, Client s' (calls st ++ [AsyncRequest (list_call ct token) r])) = (c, st') ->
      exists new,
        calls st' = calls st ++ new
        /\ (forall contacts', c = Normal contacts' ->
              length contacts' = (length contacts + fetched new)%nat)
        /\ (forall before a, new = before ++ [a] ->
              (length contacts + fetched before < Datatypes.S n)%nat)).
    { intros c0 Hc0 E. inversion E; subst. eexists. split; [reflexivity|]. split.
      - intros contacts' E'. now apply Hc0 in E'.
      - intros [|b before] a E'; [unfold fetched; simpl; lia|].
        destruct before; discriminate E'. }
    destruct r as [[v|e]|e]; simpl in Hrun.
    + destruct (received ct v) as [page|e] eqn:Hr; [|refine (Hend _ _ Hrun); discriminate].
      apply IH in Hrun as (new & Hcalls & Hn & Hbound). simpl in Hcalls.
      pose proof (received_length _ _ _ (list_call ct token) Hr) as Hlen.
      exists (AsyncRequest (list_call ct token) (Ok (Ok v)) :: new).
      rewrite Hcalls, <- app_assoc. split; [reflexivity|]. split.
      * intros contacts' E. rewrite (Hn _ E), length_app.
        change (fetched (?a :: new)) with (items_in a + fetched new)%nat. lia.
      * intros [|b before] a E.
        -- unfold fetched. simpl. lia.
        -- injection E as <- E. specialize (Hbound _ _ E). rewrite length_app in Hbound.
           change (fetched (?a :: before)) with (items_in a + fetched before)%nat. lia.
    + refine (Hend _ _ Hrun); discriminate.
    + destruct e; refine (Hend _ _ Hrun); discriminate.
Qed.

Lemma partitions_fetched n fuel cts contacts st c st' :
  limit = Some (Datatypes.S n) ->
  partitions fuel cts contacts st = (c, st') ->
  exists new,
    calls st' = calls st ++ new
    /\ (forall contacts', c = Normal contacts' ->
          length contacts' = (length contacts + fetched new)%nat)
    /\ (forall before a, new = before ++ [a] ->
          (length contacts + fetched before < Datatypes.S n)%nat).
Proof.
  intros Hl. revert contacts st. induction cts as [|ct cts IH]; intros contacts st Hrun.
  - inversion Hrun; subst. exists []. rewrite app_nil_r. split; [reflexivity|]. split.
    + intros ? [= <-]. unfold fetched. simpl. lia.
    + intros [|] ? E; discriminate E.
  - simpl in Hrun. unfold bind in Hrun.
    destruct (pages fuel ct VNone contacts st) as [c1 st1] eqn:Hp.
    apply (pages_fetched n) in Hp as (new1 & Hc1 & Hn1 & Hb1); [|exact Hl].
    destruct c1 as [contacts1| | |];
      try (inversion Hrun; subst; exists new1; split; [exact Hc1|];
           split; [discriminate|exact Hb1]).
    apply IH in Hrun as (new2 & Hc2 & Hn2 & Hb2).
    specialize (Hn1 _ eq_refl).
    exists (new1 ++ new2). rewrite Hc2, Hc1, <- app_assoc. split; [reflexivity|]. split.
    + intros contacts' E. rewrite (Hn2 _ E), Hn1, fetched_app. lia.
    + intros before a E.
      destruct (last_case new2) as [->|(before2 & a2 & ->)].
      * rewrite app_nil_r in E. now apply (Hb1 _ _ E).
      * rewrite app_assoc in E. apply app_inj_tail in E as [<- _].
        specialize (Hb2 _ _ eq_refl). rewrite fetched_app. lia.
Qed.

(** X20. With a limit set, a refresh calls the API only while it holds
    fewer items than the limit: the pages answered before its last call
    list fewer items than the limit, all together. *)
Theorem calls_stop_at_limit n fuel cts remote before a :
  limit = Some (Datatypes.S n) ->
  calls (snd (_async_update_data fuel cts (Client remote []))) = before ++ [a] ->
  (fetched before < Datatypes.S n)%nat.
Proof.
  intros Hl. rewrite update_data_partitions. simpl.
  destruct (partitions fuel cts [] (Client remote [])) as [c st'] eqn:Hp.
  apply (partitions_fetched n) in Hp as (new & Hcalls & _ & Hb); [|exact Hl].
  simpl in *. rewrite Hcalls. intros E. now apply Hb in E.
Qed.

Lemma stamp_error ct ct' items e : stamp ct items = Err e -> stamp ct' items = Err e.
Proof.
  induction items as [|item items IH]; simpl; [discriminate|].
  unfold result_bind, py_update.
  destruct item; try (intros E; exact E).
  destruct (stamp ct items) as [rest|e0]; [discriminate|].
  intros [= <-]. now rewrite (IH eq_refl).
Qed.

Lemma received_error ct ct' v e : received ct v = Err e -> received ct' v = Err e.
Proof.
  unfold received, result_bind.
  destruct (py_getitem v (lit "contacts")) as [listed|]; [|auto].
  destruct (py_iter listed) as [items|]; [|auto].
  destruct (stamp ct items) as [stamped|e0] eqn:Hs.
  - destruct (stamp ct' items) as [stamped'|e1] eqn:Hs'.
    + destruct (py_get v (lit "next_page_token") VNone); [discriminate|auto].
    + apply (stamp_error ct' ct) in Hs'. congruence.
  - intros [= <-]. now rewrite (stamp_error _ ct' _ _ Hs).
Qed.

Lemma pages_malformed fuel ct token contacts st c st' :
  pages fuel ct token contacts st = (c, st') ->
  exists new,
    calls st' = calls st ++ new
    /\ forall call v ct0 e,
         In (AsyncRequest call (Ok (Ok v))) new -> received ct0 v = Err e -> c = Raised e.
Proof.
  revert token contacts st. induction fuel as [|fuel IH]; intros token contacts st Hrun.
  - simpl in Hrun. exists [].
    destruct (loop_condition token contacts); inversion Hrun; subst;
      rewrite app_nil_r; (split; [reflexivity|intros ? ? ? ? []]).
  - destruct (loop_condition token contacts) eqn:Hc.
    2: { rewrite pages_done in Hrun by exact Hc. inversion Hrun; subst.
         exists []. rewrite app_nil_r. split; [reflexivity|intros ? ? ? ? []]. }
    rewrite pages_step in Hrun by exact Hc.
    destruct (async_request (list_call ct token) (remote st)) as [r s'].
    destruct r as [[v|e]|e]; simpl in Hrun.
    + destruct (received ct v) as [page|e] eqn:Hr.
      * apply IH in Hrun as (new & Hcalls & Hm). simpl in Hcalls.
        exists (AsyncRequest (list_call ct token) (Ok (Ok v)) :: new).
        rewrite Hcalls, <- app_assoc. split; [reflexivity|].
        intros call v0 ct0 e [E|Hin] He; [|now apply (Hm _ _ _ _ Hin He)].
        injection E as _ <-. apply (received_error ct0 ct) in He. congruence.
      * inversion Hrun; subst. eexists. split; [reflexivity|].
        intros call v0 ct0 e0 [E|[]] He. injection E as _ <-.
        apply (received_error ct0 ct) in He. congruence.
    + inversion Hrun; subst. eexists. split; [reflexivity|].
      intros call v0 ct0 e0 [E|[]] He. discriminate E.
    + assert (exists c0, (c0, Client s' (calls st ++ [AsyncRequest (list_call ct token) (Err e)]))
                         = (c, st')) as [c0 E0] by (destruct e; eauto).
      inversion E0; subst. eexists. split; [reflexivity|].
      intros call v0 ct0 e0 [E|[]] He. discriminate E.
Qed.

Lemma partitions_malformed fuel cts contacts st c st' :
  partitions fuel cts contacts st = (c, st') ->
  exists new,
    calls st' = calls st ++ new
    /\ forall call v ct0 e,
         In (AsyncRequest call (Ok (Ok v))) new -> received ct0 v = Err e -> c = Raised e.
Proof.
  revert contacts st. induction cts as [|ct cts IH]; intros contacts st Hrun.
  - inversion Hrun; subst. exists []. rewrite app_nil_r.
    split; [reflexivity|intros ? ? ? ? []].
  - simpl in Hrun. unfold bind in Hrun.
    destruct (pages fuel ct VNone contacts st) as [c1 st1] eqn:Hp.
    apply pages_malformed in Hp as (new1 & Hc1 & Hm1).
    destruct c1 as [contacts1| | |];
      try (inversion Hrun; subst; exists new1; split; [exact Hc1|exact Hm1]).
    apply IH in Hrun as (new2 & Hc2 & Hm2).
    exists (new1 ++ new2). rewrite Hc2, Hc1, <- app_assoc. split; [reflexivity|].
    intros call v ct0 e Hin He. apply in_app_or in Hin as [Hin|Hin].
    + now specialize (Hm1 _ _ _ _ Hin He).
    + now apply (Hm2 _ _ _ _ Hin He).
Qed.

(** X21. A page reply the loop cannot use ends the refresh with
    [UpdateFailed]: a body without [contacts], a [contacts] that cannot be
    iterated, an item that is no mapping, or a body that is no mapping. The
    refresh never returns the items it had collected before. *)
Theorem malformed_page_fails fuel cts remote call v ct e :
  In (AsyncRequest call (Ok (Ok v)))
     (calls (snd (_async_update_data fuel cts (Client remote [])))) ->
  received ct v = Err e ->
  fst (_async_update_data fuel cts (Client remote [])) = Raised (UpdateFailed e).
Proof.
  rewrite update_data_partitions. simpl.
  destruct (partitions fuel cts [] (Client remote [])) as [c st'] eqn:Hp.
  apply partitions_malformed in Hp as (new & Hcalls & Hm).
  simpl in *. rewrite Hcalls. intros Hin He. now rewrite (Hm _ _ _ _ Hin He).
Qed.

End ContactListLimit.

Lemma contacts_within_limit_witness :
  (length [external contact_a] <= 1)%nat.
Proof.
  refine (@contacts_within_limit script scripted (limited 1) 3%nat [lit "external"]
            (Client [reply_of page_ab; reply_of page_c_end] []) 0%nat
            [external contact_a] _ _); reflexivity.
Defined.

Lemma contacts_are_stamped_witness :
  Forall (stamped_by [lit "external"; lit "internal"])
    [external contact_a; external contact_b;
     VDict (contact_c ++ [(lit "contact_type", VStr (lit "internal"))])].
Proof.
  refine (@contacts_are_stamped script scripted unlimited 3%nat
            [lit "external"; lit "internal"]
            (Client [reply_of (Page [contact_a; contact_b] (VStr [])); reply_of page_c_end] [])
            _ _).
  reflexivity.
Defined.

Lemma only_list_requests_witness :
  exists c r ct,
    AsyncRequest (@list_call unlimited (lit "external") (VStr (lit "T1"))) (reply_of page_c_end)
      = AsyncRequest c r
    /\ method c = lit "get" /\ url c = lit "https://api.zoom.us/v2/contacts"
    /\ raise_for_status c = true
    /\ In ct [lit "external"]
    /\ dict_lookup (params c) (lit "type") = Some (VStr ct)
    /\ dict_lookup (params c) (lit "page_size") = Some (VInt 50).
Proof.
  refine (@only_list_requests script scripted unlimited 3%nat [lit "external"]
            [reply_of page_ab; reply_of page_c_end] _ _).
  right. left. reflexivity.
Defined.

Lemma cursor_comes_from_last_reply_witness :
  truthy (VStr (lit "T1")) = true
  /\ exists v, reply_of page_ab = Ok (Ok v)
               /\ py_get v (lit "next_page_token") VNone = Ok (VStr (lit "T1")).
Proof.
  refine (proj2 (@cursor_comes_from_last_reply script scripted unlimited 3%nat
                   [lit "external"] [reply_of page_ab; reply_of page_c_end])
            [] (@list_call unlimited (lit "external") VNone) (reply_of page_ab)
            (@list_call unlimited (lit "external") (VStr (lit "T1"))) (reply_of page_c_end)
            [] (VStr (lit "T1")) _ _); reflexivity.
Defined.

Lemma calls_stop_at_limit_witness :
  (fetched [AsyncRequest (@list_call (limited 3) (lit "external") VNone) (reply_of page_ab)]
   < 3)%nat.
Proof.
  refine (@calls_stop_at_limit script scripted (limited 3) 2%nat 3%nat [lit "external"]
            [reply_of page_ab; reply_of page_c_end] _
            (AsyncRequest (@list_call (limited 3) (lit "external") (VStr (lit "T1")))
               (reply_of page_c_end)) _ _); reflexivity.
Defined.

Lemma malformed_page_fails_witness :
  fst (refresh_contacts scripted unlimited 3 [lit "external"]
         [reply_of page_ab; Ok (Ok (VDict [(lit "next_page_token", VStr [])]))])
  = Raised (UpdateFailed KeyError).
Proof.
  unfold refresh_contacts.
  refine (@malformed_page_fails script scripted unlimited 3%nat [lit "external"]
            [reply_of page_ab; Ok (Ok (VDict [(lit "next_page_token", VStr [])]))]
            (@list_call unlimited (lit "external") (VStr (lit "T1")))
            (VDict [(lit "next_page_token", VStr [])]) (lit "external") KeyError _ _).
  - right. left. reflexivity.
  - reflexivity.
Defined.
